(** * OTX IPv4 ETL connector: a shallow embedding of [etl_connector.py]

    The script collects IPv4 addresses, fetches the "general" indicator
    document of each one from AlienVault OTX with a bounded retry loop,
    wraps it in a record and writes it to a MongoDB collection (or prints it
    in dry-run mode).

    Python values are embedded as follows.
    - [str] is [string]; a character is a code point below 256.
    - [int] is [Z].
    - a decoded JSON value is [json]; a [dict] with string keys is a
      [gmap string json].
    - code that raises, reads the outside world or prints runs in the monad
      [M]: a state transformer over [state] whose result is a value or a
      raised exception.  Everything the script cannot decide on its own (the
      replies of the HTTP endpoint, the clock, the process environment, the
      file system, the document store, the sleeps the operating system
      grants) is read from a [world]. *)

From stdpp Require Import base option list gmap strings pretty.
From Stdlib Require Import ZArith NArith Ascii Lia.

#[local] Set Warnings "-register-all".
#[local] Open Scope Z_scope.

(* ================================================================= *)
(** ** Python strings *)

Module Str.

(** Truth value of a [str]: only the empty string is false. *)
Definition truthy (s : string) : bool :=
  match s with
  | EmptyString => false
  | String _ _ => true
  end.

(** Characters removed by [str.strip()]: the code points below 256 for
    which [str.isspace] holds. *)
Definition is_whitespace (c : ascii) : bool :=
  let n := N_of_ascii c in
  ((9 <=? n) && (n <=? 13) || (28 <=? n) && (n <=? 32)
   || (n =? 133) || (n =? 160))%N.

Fixpoint lstrip (s : string) : string :=
  match s with
  | EmptyString => EmptyString
  | String c r => if is_whitespace c then lstrip r else s
  end.

(** Trailing whitespace removed: the end of [s] is dropped as long as what
    follows a character is empty and the character is whitespace. *)
Fixpoint rstrip (s : string) : string :=
  match s with
  | EmptyString => EmptyString
  | String c r =>
      match rstrip r with
      | EmptyString =>
          if is_whitespace c then EmptyString else String c EmptyString
      | String d r' => String c (String d r')
      end
  end.

(** [s.strip()] *)
Definition strip (s : string) : string := rstrip (lstrip s).

(** [s.startswith(c)] for a one-character prefix. *)
Definition startswith (c : ascii) (s : string) : bool :=
  match s with
  | EmptyString => false
  | String d _ => bool_decide (d = c)
  end.

(** [s.split(sep)] for a one-character separator: always at least one
    piece, empty pieces kept. *)
Fixpoint split (sep : ascii) (s : string) : list string :=
  match s with
  | EmptyString => [EmptyString]
  | String c r =>
      if bool_decide (c = sep) then EmptyString :: split sep r
      else match split sep r with
           | piece :: pieces => String c piece :: pieces
           | [] => [String c EmptyString]
           end
  end.

Definition LF : ascii := "010"%char.
Definition CR : ascii := "013"%char.

(** Iterating over a file opened in text mode: the text is cut after every
    line end; a line end is LF, CR or CR LF and is handed over as a single
    LF.  [after_cr] tells that the previous character was a CR, whose LF,
    if one follows, belongs to the line end already produced. *)
Fixpoint lines_from (after_cr : bool) (s : string) : list string :=
  match s with
  | EmptyString => []
  | String c r =>
      if bool_decide (c = LF) then
        if after_cr then lines_from false r
        else String LF EmptyString :: lines_from false r
      else if bool_decide (c = CR) then
        String LF EmptyString :: lines_from true r
      else match lines_from false r with
           | line :: lines => String c line :: lines
           | [] => [String c EmptyString]
           end
  end.

Definition file_lines (text : string) : list string := lines_from false text.

(** The first character of [s] that is not whitespace, if there is one. *)
Fixpoint first_non_whitespace (s : string) : option ascii :=
  match s with
  | EmptyString => None
  | String c r => if is_whitespace c then first_non_whitespace r else Some c
  end.

(** [c in s] *)
Fixpoint contains (c : ascii) (s : string) : bool :=
  match s with
  | EmptyString => false
  | String d r => bool_decide (d = c) || contains c r
  end.

(** [sep.join(pieces)] for a one-character separator. *)
Fixpoint join (sep : ascii) (pieces : list string) : string :=
  match pieces with
  | [] => EmptyString
  | [piece] => piece
  | piece :: rest => piece +:+ String sep (join sep rest)
  end.

(** The text with every LF written as CR LF. *)
Fixpoint to_crlf (s : string) : string :=
  match s with
  | EmptyString => EmptyString
  | String c r =>
      if bool_decide (c = LF) then String CR (String LF (to_crlf r))
      else String c (to_crlf r)
  end.

End Str.

(* ================================================================= *)
(** ** JSON values, exceptions, the outside world *)

(** A decoded JSON document.  Numbers with a fraction or an exponent are
    kept as their literal: the script never computes with them. *)
Inductive json :=
| JNull
| JBool (b : bool)
| JInt (n : Z)
| JFloat (literal : string)
| JStr (s : string)
| JArr (items : list json)
| JObj (fields : gmap string json).

(** The exceptions the script can meet.  All of them are subclasses of
    [Exception]; [RequestException], [HTTPError] and [JSONDecodeError] are
    the ones named by the [except] clause of the fetcher.  An [OSError] is
    given by the path or by the text of the failure. *)
Inductive exn :=
| RequestException (detail : string)
| HTTPError (status : Z)
| JSONDecodeError
| RuntimeError (msg : string)
| ValueError (msg : string)
| OverflowError (msg : string)
| AttributeError (attr : string)
| OSError (path : string)
| PyMongoError (detail : string).

(** What a call of [requests.get] with a positive timeout ends with: a
    transport failure (a [RequestException]), a response with a status code
    and a body that decodes as JSON or does not, or any other exception
    that the library lets through, for instance the [OverflowError] of a
    timeout that a socket cannot take. *)
Record response := { status_code : Z; body : option json }.

Inductive reply :=
| Transport (detail : string)
| Response (resp : response)
| Crash (e : exn).

Inductive event :=
| EvGet (url : string) (headers : gmap string string) (timeout : Z)
| EvSleep (seconds : Z)
| EvWarnRateLimited (attempt sleep_for : Z)
| EvWarnRetry (ip : string) (attempt max_retries : Z) (e : exn) (sleep_for : Z)
| EvConnect (uri : string)
| EvCreateIndex (db coll : string)
| EvWarnIndex (e : exn)
| EvUpdateOne (filter set : gmap string json) (upsert : bool)
| EvInsertOne (doc : gmap string json)
| EvPrintJson (doc : json)
| EvInfo (ip status : string)
| EvErrorConnect (e : exn)
| EvErrorFailed (ip : string) (e : exn)
| EvNoIps.

(** The outside world, as far as the script observes it.  The numbered
    oracles answer the k-th use of the resource, counting from 0.  [None]
    from the store means that the call went through; a failure of
    [create_index] is a [PyMongoError], given by its text.  [os_sleep]
    tells what the operating system makes of a sleep of so many seconds:
    [None] when it sleeps, the text of its [OSError] when it refuses. *)
Record world := {
  getenv : string → option string;
  parse_int : string → option Z;
  read_text : string → option string;
  http_get : nat → string → reply;
  os_sleep : Z → option string;
  utc_now : nat → string;
  mongo_ping : option exn;
  mongo_create_index : option string;
  mongo_write : nat → option exn;
}.

Record state := {
  requests : nat;
  clock_reads : nat;
  writes : nat;
  trace : list event;
}.

Inductive result (A : Type) :=
| Ok (a : A)
| Raise (e : exn).
Arguments Ok {A} a.
Arguments Raise {A} e.

Definition M (A : Type) : Type := state → result A * state.

#[global] Instance M_ret : MRet M := λ A a s, (Ok a, s).

#[global] Instance M_bind : MBind M := λ A B f m s,
  match m s with
  | (Ok a, s') => f a s'
  | (Raise e, s') => (Raise e, s')
  end.

Definition raise {A} (e : exn) : M A := λ s, (Raise e, s).

(** [try: body / except <caught>: handler]; an exception outside the named
    classes passes through. *)
Definition try_except {A} (body : M A) (caught : exn → bool)
    (handler : exn → M A) : M A := λ s,
  match body s with
  | (Ok a, s') => (Ok a, s')
  | (Raise e, s') => if caught e then handler e s' else (Raise e, s')
  end.

(** The state after some more events. *)
Definition record_events (evs : list event) (s : state) : state :=
  {| requests := requests s; clock_reads := clock_reads s;
     writes := writes s; trace := trace s ++ evs |}.

Definition emit (e : event) : M unit := λ s, (Ok tt, record_events [e] s).

(* ================================================================= *)
(** ** Library calls *)

Section Program.

Context (W : world).

(** [int(s)] *)
Definition int (s : string) : M Z :=
  match parse_int W s with
  | Some n => mret n
  | None => raise (ValueError s)
  end.

(** [os.getenv(name, default)] *)
Definition os_getenv (name dflt : string) : string :=
  default dflt (getenv W name).

(** [open(path).read()], as far as the script iterates over the lines. *)
Definition open_text (path : string) : M string :=
  match read_text W path with
  | Some text => mret text
  | None => raise (OSError path)
  end.

(** What [requests.get] raises for a timeout that is not positive: the
    [ValueError] of urllib3's check of the timeout, which is no
    [RequestException]. *)
Definition timeout_refused (timeout : Z) : exn :=
  ValueError ("Attempted to set connect timeout to " +:+ pretty timeout
              +:+ ", but the timeout cannot be set to a value less than or"
              +:+ " equal to 0.").

(** [requests.get(url, headers=headers, timeout=timeout)] for an [int]
    timeout: one that is not positive is refused before anything is sent;
    otherwise the request is made and the world tells how it ends. *)
Definition requests_get (url : string) (headers : gmap string string)
    (timeout : Z) : M response := λ s,
  if timeout <=? 0 then (Raise (timeout_refused timeout), s)
  else
    let s' := {| requests := S (requests s); clock_reads := clock_reads s;
                 writes := writes s;
                 trace := trace s ++ [EvGet url headers timeout] |} in
    match http_get W (requests s) url with
    | Transport detail => (Raise (RequestException detail), s')
    | Response resp => (Ok resp, s')
    | Crash e => (Raise e, s')
    end.

(** [resp.raise_for_status()]: 4xx and 5xx raise [HTTPError]. *)
Definition raise_for_status (resp : response) : M unit :=
  if (400 <=? status_code resp) && (status_code resp <? 600)
  then raise (HTTPError (status_code resp))
  else mret tt.

(** [resp.json()] *)
Definition resp_json (resp : response) : M json :=
  match body resp with
  | Some payload => mret payload
  | None => raise JSONDecodeError
  end.

(** The longest sleep, in seconds, whose nanoseconds fit the 64 bits of
    CPython's clock type. *)
Definition longest_sleep : Z := 9223372036.

(** What [time.sleep(seconds)] raises for an [int] instead of sleeping, if
    anything.  CPython first converts the length to nanoseconds (an
    [OverflowError] when they do not fit, whatever the sign), then refuses
    a negative length (a [ValueError]), then asks the operating system,
    which may refuse a length it cannot schedule (an [OSError]). *)
Definition sleep_refusal (seconds : Z) : option exn :=
  if (seconds <? - longest_sleep) || (longest_sleep <? seconds)
  then Some (OverflowError "timestamp too large to convert to C _PyTime_t")
  else if seconds <? 0
  then Some (ValueError "sleep length must be non-negative")
  else OSError <$> os_sleep W seconds.

(** [time.sleep(seconds)] *)
Definition time_sleep (seconds : Z) : M unit :=
  match sleep_refusal seconds with
  | Some e => raise e
  | None => emit (EvSleep seconds)
  end.

(** [datetime.now(timezone.utc).isoformat()] *)
Definition utc_now_isoformat : M string := λ s,
  (Ok (utc_now W (clock_reads s)),
   {| requests := requests s; clock_reads := S (clock_reads s);
      writes := writes s; trace := trace s |}).

(** [value.get(key)]: only a dict has the method. *)
Definition py_get (value : json) (key : string) (dflt : json) : M json :=
  match value with
  | JObj fields => mret (default dflt (fields !! key))
  | _ => raise (AttributeError "get")
  end.

(** [isinstance(value, dict)] *)
Definition is_dict (value : json) : bool :=
  match value with
  | JObj _ => true
  | _ => false
  end.

(** A write to the collection: the store accepts or refuses it. *)
Definition store_write (op : event) : M unit := λ s,
  let s' := {| requests := requests s; clock_reads := clock_reads s;
               writes := S (writes s); trace := trace s ++ [op] |} in
  match mongo_write W (writes s) with
  | None => (Ok tt, s')
  | Some e => (Raise e, s')
  end.

(* ================================================================= *)
(** ** The script *)

Definition OTX_URL_TEMPLATE_format (ip : string) : string :=
  "https://otx.alienvault.com/api/v1/indicators/IPv4/" +:+ ip +:+ "/general".

Record env := {
  MONGO_URI : string;
  MONGO_DB : string;
  MONGO_COLLECTION : string;
  OTX_API_KEY : string;
  OTX_USER_AGENT : string;
  REQUEST_TIMEOUT : string;
  MAX_RETRIES : string;
  RETRY_BACKOFF_SECONDS : string;
}.

Definition load_env : env :=
  {| MONGO_URI := os_getenv "MONGO_URI" "mongodb://localhost:27017";
     MONGO_DB := os_getenv "MONGO_DB" "otx";
     MONGO_COLLECTION := os_getenv "MONGO_COLLECTION" "otx_ipv4_raw";
     OTX_API_KEY := os_getenv "OTX_API_KEY" EmptyString;
     OTX_USER_AGENT := os_getenv "OTX_USER_AGENT" "SSN-SA-ETL/1.0";
     REQUEST_TIMEOUT := os_getenv "REQUEST_TIMEOUT" "20";
     MAX_RETRIES := os_getenv "MAX_RETRIES" "3";
     RETRY_BACKOFF_SECONDS := os_getenv "RETRY_BACKOFF_SECONDS" "2" |}.

(** *** Input collector *)

(** The de-duplication loop: [seen] is the set, [ordered] the list built so
    far. *)
Fixpoint dedup_loop (ips : list string) (seen : gset string)
    (ordered : list string) : list string :=
  match ips with
  | [] => ordered
  | ip :: rest =>
      if decide (ip ∈ seen) then dedup_loop rest seen ordered
      else dedup_loop rest ({[ip]} ∪ seen) (ordered ++ [ip])
  end.

(** The body of [for line in f]. *)
Definition collect_line (ips : list string) (line : string) : list string :=
  let s := Str.strip line in
  if Str.truthy s && negb (Str.startswith "#" s) then ips ++ [s] else ips.

Definition iter_ips_from_args (ips_arg ips_file : option string)
    : M (list string) :=
  let ips := [] in
  let ips :=
    match ips_arg with
    | Some arg =>
        if Str.truthy arg then
          ips ++ (Str.strip <$>
                    filter (λ x, Str.truthy (Str.strip x) = true)
                           (Str.split "," arg))
        else ips
    | None => ips
    end in
  ips ← match ips_file with
        | Some path =>
            if Str.truthy path then
              text ← open_text path;
              mret (foldl collect_line ips (Str.file_lines text))
            else mret ips
        | None => mret ips
        end;
  mret (dedup_loop ips ∅ []).

(** *** Fetcher *)

(** How one iteration of the retry loop ends: with [continue] (or by
    reaching the end of the body), or with [return]. *)
Inductive flow :=
| Continue
| Return (payload : json).

(** [except (requests.RequestException, json.JSONDecodeError)] *)
Definition is_request_or_json_error (e : exn) : bool :=
  match e with
  | RequestException _ | HTTPError _ | JSONDecodeError => true
  | _ => false
  end.

Section Fetch.

Context (ip : string) (headers : gmap string string).
Context (timeout max_retries backoff : Z).

Definition attempt_body (url : string) (attempt : Z) : M flow :=
  resp ← requests_get url headers timeout;
  if status_code resp =? 429 then
    let sleep_for := backoff * attempt in
    emit (EvWarnRateLimited attempt sleep_for);;
    time_sleep sleep_for;;
    mret Continue
  else
    raise_for_status resp;;
    payload ← resp_json resp;
    mret (Return payload).

Definition attempt_handler (attempt : Z) (e : exn) : M flow :=
  if attempt =? max_retries then raise e
  else
    let sleep_for := backoff * attempt in
    emit (EvWarnRetry ip attempt max_retries e sleep_for);;
    time_sleep sleep_for;;
    mret Continue.

Fixpoint fetch_loop (url : string) (attempts : list Z) : M json :=
  match attempts with
  | [] => raise (RuntimeError "Exhausted retries unexpectedly")
  | attempt :: rest =>
      f ← try_except (attempt_body url attempt) is_request_or_json_error
                     (attempt_handler attempt);
      match f with
      | Continue => fetch_loop url rest
      | Return payload => mret payload
      end
  end.

(** [range(1, stop)] *)
Definition range1 (stop : Z) : list Z :=
  Z.of_nat <$> seq 1 (Z.to_nat (stop - 1)).

Definition fetch_otx_general : M json :=
  let url := OTX_URL_TEMPLATE_format ip in
  fetch_loop url (range1 (max_retries + 1)).

End Fetch.

(** *** Transformer *)

Definition transform (ip : string) (payload : json) : M (gmap string json) :=
  now ← utc_now_isoformat;
  indicator ← py_get payload "indicator" JNull;
  alexa ← py_get payload "alexa" JNull;
  alexa_rank ← (if is_dict alexa
                then a ← py_get payload "alexa" (JObj ∅); py_get a "rank" JNull
                else mret JNull);
  pulse_info ← py_get payload "pulse_info" JNull;
  pulse_count ← (if is_dict pulse_info
                 then p ← py_get payload "pulse_info" (JObj ∅);
                      py_get p "count" JNull
                 else mret JNull);
  mret ({[ "ip" := JStr ip;
           "source" := JStr "AlienVault OTX";
           "endpoint" := JStr "IPv4/general";
           "fetched_at" := JStr now;
           "raw" := payload;
           "indicator" := indicator;
           "alexa_rank" := alexa_rank;
           "pulse_count" := pulse_count ]} : gmap string json).

(** *** Persistence layer *)

Record collection := { coll_db : string; coll_name : string }.

(** [except pymongo_errors.PyMongoError] *)
Definition is_pymongo_error (e : exn) : bool :=
  match e with
  | PyMongoError _ => true
  | _ => false
  end.

Definition create_index (coll : collection) : M unit :=
  emit (EvCreateIndex (coll_db coll) (coll_name coll));;
  match mongo_create_index W with
  | None => mret tt
  | Some detail => raise (PyMongoError detail)
  end.

Definition get_mongo_collection (mongo_uri db_name coll_name : string)
    : M collection :=
  emit (EvConnect mongo_uri);;
  match mongo_ping W with
  | Some e => raise e
  | None =>
      let coll := {| coll_db := db_name; coll_name := coll_name |} in
      try_except (create_index coll) is_pymongo_error
                 (λ e, emit (EvWarnIndex e));;
      mret coll
  end.

(** A method call on the handle; in dry-run mode the handle is [None]. *)
Definition coll_call (coll : option collection) (method : string)
    (op : event) : M unit :=
  match coll with
  | Some _ => store_write op
  | None => raise (AttributeError method)
  end.

Definition is_not_None (v : json) : bool :=
  match v with
  | JNull => false
  | _ => true
  end.

(** The condition
    [upsert_key and upsert_key in doc and doc[upsert_key] is not None];
    when it holds, the key and the value to match on. *)
Definition upsert_filter (doc : gmap string json)
    (upsert_key : option string) : option (string * json) :=
  match upsert_key with
  | None => None
  | Some key =>
      if Str.truthy key then
        match doc !! key with
        | Some v => if is_not_None v then Some (key, v) else None
        | None => None
        end
      else None
  end.

Definition upsert_document (coll : option collection)
    (doc : gmap string json) (upsert_key : option string) : M string :=
  match upsert_filter doc upsert_key with
  | Some (key, v) =>
      coll_call coll "update_one" (EvUpdateOne {[ key := v ]} doc true);;
      mret "upserted"
  | None =>
      coll_call coll "insert_one" (EvInsertOne doc);;
      mret "inserted"
  end.

(** *** Orchestrator *)

Section Run.

Context (dry_run : bool) (upsert_key : option string).
Context (coll : option collection) (headers : gmap string string).
Context (timeout max_retries backoff : Z).

(** The body of the [try] of the loop, up to the increment. *)
Definition process_ip (ip : string) : M unit :=
  payload ← fetch_otx_general ip headers timeout max_retries backoff;
  doc ← transform ip payload;
  if dry_run then emit (EvPrintJson (JObj doc))
  else
    status ← upsert_document coll doc upsert_key;
    emit (EvInfo ip status).

Fixpoint run_loop (ips : list string) (successes : Z) : M Z :=
  match ips with
  | [] => mret successes
  | ip :: rest =>
      successes ← try_except (process_ip ip;; mret (successes + 1))
                             (λ _, true)
                             (λ e, emit (EvErrorFailed ip e);; mret successes);
      run_loop rest successes
  end.

End Run.

Definition request_headers (e : env) : gmap string string :=
  let headers : gmap string string :=
    {[ "Accept" := "application/json";
       "User-Agent" := if Str.truthy (OTX_USER_AGENT e)
                       then OTX_USER_AGENT e else "SSN-SA-ETL/1.0" ]} in
  if Str.truthy (OTX_API_KEY e)
  then <[ "X-OTX-API-KEY" := OTX_API_KEY e ]> headers
  else headers.

(** The loop and the [return] after it, once [coll] is bound. *)
Definition run_batch (ips : list string) (dry_run : bool)
    (upsert_key : option string) (coll : option collection)
    (headers : gmap string string) (timeout max_retries backoff : Z) : M Z :=
  successes ← run_loop dry_run upsert_key coll headers
                       timeout max_retries backoff ips 0;
  mret (if successes =? Z.of_nat (length ips) then 0 else 1).

(** In [run] the [except] branch of the connection returns 2 at once: the
    [try] hands over [Some coll], the handler [None]. *)
Definition run (ips : list string) (dry_run : bool)
    (upsert_key : option string) : M Z :=
  let e := load_env in
  timeout ← int (REQUEST_TIMEOUT e);
  max_retries ← int (MAX_RETRIES e);
  backoff ← int (RETRY_BACKOFF_SECONDS e);
  let headers := request_headers e in
  if negb dry_run then
    connected ← try_except
                  (coll ← get_mongo_collection (MONGO_URI e) (MONGO_DB e)
                                               (MONGO_COLLECTION e);
                   mret (Some coll))
                  (λ _, true)
                  (λ err, emit (EvErrorConnect err);; mret None);
    match connected with
    | Some coll =>
        run_batch ips dry_run upsert_key (Some coll) headers
                  timeout max_retries backoff
    | None => mret 2
    end
  else
    run_batch ips dry_run upsert_key None headers timeout max_retries backoff.

Record args := {
  arg_ips : option string;
  arg_ips_file : option string;
  arg_dry_run : bool;
  arg_upsert_key : string;
}.

Definition main (a : args) : M Z :=
  ips ← iter_ips_from_args (arg_ips a) (arg_ips_file a);
  match ips with
  | [] => emit EvNoIps;; mret 1
  | _ => run ips (arg_dry_run a) (Some (arg_upsert_key a))
  end.

(** [sys.exit(main())]: the exit status of the process; an exception that
    nobody catches ends it with status 1. *)
Definition exit_status (a : args) (s : state) : Z :=
  match main a s with
  | (Ok status, _) => status
  | (Raise _, _) => 1
  end.

End Program.

(* ================================================================= *)
(** ** Vocabulary of the specification *)

(** *** Input collector *)

(** The inline source: split on the comma, trim, drop the empty tokens. *)
Definition inline_addresses (ips_arg : option string) : list string :=
  match ips_arg with
  | None => []
  | Some arg =>
      filter (λ token, token ≠ EmptyString)
             (Str.strip <$> Str.split "," arg)
  end.

(** A line is discarded when it is blank or when its first character that
    is not whitespace is the hash sign. *)
Definition discarded_line (line : string) : bool :=
  match Str.first_non_whitespace line with
  | None => true
  | Some c => bool_decide (c = "#"%char)
  end.

(** The file source, given the text of the file if one was read. *)
Definition file_addresses (contents : option string) : list string :=
  match contents with
  | None => []
  | Some text =>
      Str.strip <$> filter (λ line, discarded_line line = false)
                           (Str.file_lines text)
  end.

(** Every element that already occurs earlier is removed; [earlier] holds
    what precedes [l] in the combined order. *)
Fixpoint remove_seen_earlier (earlier l : list string) : list string :=
  match l with
  | [] => []
  | x :: r =>
      if decide (x ∈ earlier) then remove_seen_earlier (earlier ++ [x]) r
      else x :: remove_seen_earlier (earlier ++ [x]) r
  end.

(** What the collector finds behind [--ips-file]: no path (or an empty
    one) and no text, or a path whose file reads as [text]. *)
Inductive opened (W : world) : option string → option string → Prop :=
| opened_absent : opened W None None
| opened_empty_path : opened W (Some EmptyString) None
| opened_file path text :
    Str.truthy path = true →
    read_text W path = Some text →
    opened W (Some path) (Some text).

(** *** Fetcher *)

(** The state after [n] more requests and the events [evs]. *)
Definition after_fetch (n : nat) (evs : list event) (s : state) : state :=
  {| requests := n + requests s; clock_reads := clock_reads s;
     writes := writes s; trace := trace s ++ evs |}.

(** The backoff sleeps among some events, in order. *)
Definition sleeps (evs : list event) : list Z :=
  omap (λ e, match e with EvSleep seconds => Some seconds | _ => None end) evs.

(** The request attempts among some events: the URLs asked for. *)
Definition requested (evs : list event) : list string :=
  omap (λ e, match e with EvGet url _ _ => Some url | _ => None end) evs.

(** A reply that makes an attempt fail, and the failure it raises: a
    transport failure, a body that is not JSON, or an error status other
    than 429. *)
Inductive attempt_fails : reply → exn → Prop :=
| fails_transport detail :
    attempt_fails (Transport detail) (RequestException detail)
| fails_malformed_body status :
    status ≠ 429 → ¬ (400 ≤ status < 600) →
    attempt_fails (Response {| status_code := status; body := None |})
                  JSONDecodeError
| fails_error_status status body :
    status ≠ 429 → 400 ≤ status < 600 →
    attempt_fails (Response {| status_code := status; body := body |})
                  (HTTPError status).

(** A reply that says: rate limited. *)
Definition rate_limited (r : reply) : Prop :=
  ∃ resp, r = Response resp ∧ status_code resp = 429.

(** A 2xx reply whose body decodes to [payload]. *)
Definition succeeds_with (r : reply) (payload : json) : Prop :=
  ∃ resp, r = Response resp ∧ 200 ≤ status_code resp < 300
          ∧ body resp = Some payload.

Definition fall_through : exn := RuntimeError "Exhausted retries unexpectedly".

(** *** Persistence layer *)

(** The state after one write [op] was sent to the store. *)
Definition after_write (op : event) (s : state) : state :=
  {| requests := requests s; clock_reads := clock_reads s;
     writes := S (writes s); trace := trace s ++ [op] |}.

(** The result of a write that the store accepts or refuses. *)
Definition written (W : world) (status : string) (s : state)
    : result string :=
  match mongo_write W (writes s) with
  | None => Ok status
  | Some e => Raise e
  end.

(** The key name is provided, is a field of the document, and the field is
    not null. *)
Definition key_present_non_null (doc : gmap string json)
    (upsert_key : option string) (key : string) (v : json) : Prop :=
  upsert_key = Some key ∧ doc !! key = Some v ∧ v ≠ JNull.

(** *** Transformer *)

Definition record_keys : gset string :=
  {[ "ip"; "source"; "endpoint"; "fetched_at"; "raw";
     "indicator"; "alexa_rank"; "pulse_count" ]}.

(** [payload.field] when [payload.name] is itself a mapping, null
    otherwise. *)
Definition nested_field (payload : gmap string json) (name field : string)
    : json :=
  match payload !! name with
  | Some (JObj inner) => default JNull (inner !! field)
  | _ => JNull
  end.

(** The state after the clock was read once more. *)
Definition after_clock (s : state) : state :=
  {| requests := requests s; clock_reads := S (clock_reads s);
     writes := writes s; trace := trace s |}.

(** *** Orchestrator *)

(** The three numeric settings, when all of them parse. *)
Definition numeric_config (W : world) : option (Z * Z * Z) :=
  timeout ← parse_int W (REQUEST_TIMEOUT (load_env W));
  max_retries ← parse_int W (MAX_RETRIES (load_env W));
  backoff ← parse_int W (RETRY_BACKOFF_SECONDS (load_env W));
  Some (timeout, max_retries, backoff).

(** What a successful start of a real run leaves in the trace: the
    connection, the index, and a warning when the index was refused. *)
Definition connect_events (W : world) : list event :=
  [EvConnect (MONGO_URI (load_env W));
   EvCreateIndex (MONGO_DB (load_env W)) (MONGO_COLLECTION (load_env W))]
  ++ match mongo_create_index W with
     | Some detail => [EvWarnIndex (PyMongoError detail)]
     | None => []
     end.

(** What a start that ends [run] leaves in the trace. *)
Definition connect_failed_events (W : world) (e : exn) : list event :=
  [EvConnect (MONGO_URI (load_env W)); EvErrorConnect e].

(** How the processing of one address ended, as the output shows it: a
    status line or a printed record, or an error line. *)
Inductive outcome :=
| Succeeded (ip : string)
| Failed (ip : string) (e : exn).

Definition outcome_ip (o : outcome) : string :=
  match o with
  | Succeeded ip => ip
  | Failed ip _ => ip
  end.

Definition is_failed (o : outcome) : bool :=
  match o with
  | Succeeded _ => false
  | Failed _ _ => true
  end.

Definition outcome_of (e : event) : option outcome :=
  match e with
  | EvInfo ip _ => Some (Succeeded ip)
  | EvPrintJson (JObj doc) =>
      match doc !! "ip" with
      | Some (JStr ip) => Some (Succeeded ip)
      | _ => None
      end
  | EvErrorFailed ip e => Some (Failed ip e)
  | _ => None
  end.

Definition outcomes (evs : list event) : list outcome := omap outcome_of evs.

(** The addresses counted as failed. *)
Definition failures (evs : list event) : list outcome :=
  filter (λ o, is_failed o = true) (outcomes evs).

(** The failure that ends [run] before the loop, if there is one: the store
    cannot be reached.  Dry-run mode does not ask. *)
Definition startup_failure (W : world) (dry_run : bool) : option exn :=
  if dry_run then None else mongo_ping W.

(** Events of the document store: the connection and the writes. *)
Definition is_store_event (e : event) : bool :=
  match e with
  | EvConnect _ | EvCreateIndex _ _ | EvUpdateOne _ _ _ | EvInsertOne _ => true
  | _ => false
  end.

(** Events of the fetcher. *)
Definition is_fetch_event (e : event) : bool :=
  match e with
  | EvGet _ _ _ | EvSleep _ | EvWarnRateLimited _ _ | EvWarnRetry _ _ _ _ _ =>
      true
  | _ => false
  end.

(** What is printed to standard output in dry-run mode. *)
Definition printed (evs : list event) : list json :=
  omap (λ e, match e with EvPrintJson doc => Some doc | _ => None end) evs.

(** A JSON object with exactly the keys of a record. *)
Definition is_record (doc : json) : Prop :=
  ∃ fields, doc = JObj fields ∧ dom fields = record_keys.

(** What a dry run may do: requests, sleeps and warnings of the fetcher, a
    record printed, an error line for an address. *)
Definition dry_run_event (e : event) : Prop :=
  is_fetch_event e = true
  ∨ (∃ doc, e = EvPrintJson doc ∧ is_record doc)
  ∨ (∃ ip err, e = EvErrorFailed ip err).

(** *** The batch, address by address *)

(** A result that is no exception. *)
Definition succeeded {A} (r : result A) : bool :=
  match r with
  | Ok _ => true
  | Raise _ => false
  end.

(** The outcome that the output shows for an address whose [try] body ended
    with [r]. *)
Definition outcome_for (ip : string) (r : result unit) : outcome :=
  match r with
  | Ok _ => Succeeded ip
  | Raise e => Failed ip e
  end.

(** The state in which a run takes up its first address: as it was in a dry
    run, after the events of the connection in a real one. *)
Definition started (W : world) (dry_run : bool) (s : state) : state :=
  if dry_run then s else record_events (connect_events W) s.

(** The collection a run works with once its start went through. *)
Definition store_handle (W : world) (dry_run : bool) : option collection :=
  if dry_run then None
  else Some {| coll_db := MONGO_DB (load_env W);
               coll_name := MONGO_COLLECTION (load_env W) |}.

Section Batch.

Context (W : world) (dry_run : bool) (upsert_key : option string).
Context (coll : option collection) (headers : gmap string string).
Context (timeout max_retries backoff : Z).

(** The state an address is left in: the one in which the body of its
    [try] ended, with the error line after it when the body raised. *)
Definition after_address (ip : string) (s : state) : state :=
  match process_ip W dry_run upsert_key coll headers timeout max_retries
                   backoff ip s with
  | (Ok _, s1) => s1
  | (Raise e, s1) => record_events [EvErrorFailed ip e] s1
  end.

(** What the body of the [try] ends with for each address of the list, each
    one taken up in the state the addresses before it were left in. *)
Fixpoint address_results (ips : list string) (s : state)
    : list (result unit) :=
  match ips with
  | [] => []
  | ip :: rest =>
      (process_ip W dry_run upsert_key coll headers timeout max_retries
                  backoff ip s).1
      :: address_results rest (after_address ip s)
  end.

(** The state after all the addresses of the list. *)
Fixpoint after_addresses (ips : list string) (s : state) : state :=
  match ips with
  | [] => s
  | ip :: rest => after_addresses rest (after_address ip s)
  end.

(** The record of an address, as JSON, when its fetch returns a payload of
    which the transformer makes a record. *)
Definition fetched_record (ip : string) (s : state) : option json :=
  match fetch_otx_general W ip headers timeout max_retries backoff s with
  | (Ok payload, s1) =>
      match transform W ip payload s1 with
      | (Ok record, _) => Some (JObj record)
      | (Raise _, _) => None
      end
  | (Raise _, _) => None
  end.

(** The records of the addresses that were fetched, in the order of the
    list. *)
Fixpoint fetched_records (ips : list string) (s : state) : list json :=
  match ips with
  | [] => []
  | ip :: rest =>
      match fetched_record ip s with
      | Some record => record :: fetched_records rest (after_address ip s)
      | None => fetched_records rest (after_address ip s)
      end
  end.

End Batch.

(** *** Fetcher, attempt by attempt *)

(** What one attempt makes of a reply: a payload to return, a rate limit,
    a failure of the classes the [except] clause names, or an exception of
    another class, which leaves the fetcher at once. *)
Inductive verdict :=
| Delivered (payload : json)
| Limited
| Broken (e : exn)
| Fatal (e : exn).

Definition verdict_of (r : reply) : verdict :=
  match r with
  | Transport detail => Broken (RequestException detail)
  | Response resp =>
      if status_code resp =? 429 then Limited
      else if (400 <=? status_code resp) && (status_code resp <? 600)
           then Broken (HTTPError (status_code resp))
           else match body resp with
                | Some payload => Delivered payload
                | None => Broken JSONDecodeError
                end
  | Crash e => if is_request_or_json_error e then Broken e else Fatal e
  end.

(** A reply after which the loop can go on: a rate limit or a failure that
    the [except] clause names. *)
Definition retried (r : reply) : Prop :=
  verdict_of r = Limited ∨ ∃ e, verdict_of r = Broken e.

(** What [time.sleep] raises on a negative length that fits the clock. *)
Definition sleep_refused : exn :=
  ValueError "sleep length must be non-negative".

(** The sum of some durations. *)
Definition total (durations : list Z) : Z := foldr Z.add 0 durations.

(** The requests among some events, with all they were sent with. *)
Definition gets (evs : list event)
    : list (string * gmap string string * Z) :=
  omap (λ e, match e with
             | EvGet url headers timeout => Some (url, headers, timeout)
             | _ => None
             end) evs.

(** *** Writes of a run *)

Definition is_write (e : event) : bool :=
  match e with
  | EvUpdateOne _ _ _ | EvInsertOne _ => true
  | _ => false
  end.

Definition store_writes (evs : list event) : list event :=
  filter (λ e, is_write e = true) evs.

(** A write of a record: an insert of it, or an update with upsert whose
    filter is one field of it. *)
Definition writes_record (e : event) : Prop :=
  match e with
  | EvInsertOne doc => dom doc = record_keys
  | EvUpdateOne filter doc upsert =>
      dom doc = record_keys ∧ upsert = true ∧
      ∃ key v, filter = {[ key := v ]} ∧ doc !! key = Some v ∧ v ≠ JNull
  | _ => False
  end.




(** *** Worlds that differ in the index, states that differ in the past *)

(** The world [W] with another answer of [create_index]. *)
Definition with_create_index (W : world) (answer : option string) : world :=
  {| getenv := getenv W;
     parse_int := parse_int W;
     read_text := read_text W;
     http_get := http_get W;
     os_sleep := os_sleep W;
     utc_now := utc_now W;
     mongo_ping := mongo_ping W;
     mongo_create_index := answer;
     mongo_write := mongo_write W |}.

(** The state [s] with the events [pre] before its trace. *)
Definition shift (pre : list event) (s : state) : state :=
  {| requests := requests s; clock_reads := clock_reads s;
     writes := writes s; trace := pre ++ trace s |}.

(** A computation that does not look at the trace: with more events in the
    past it does the same and leaves them there. *)
Definition history_free {A} (m : M A) : Prop :=
  ∀ pre s, m (shift pre s) = (let (r, s') := m s in (r, shift pre s')).

(** *** A dry run and the real one *)

(** The documents sent to the store, as JSON. *)
Definition documents_written (evs : list event) : list json :=
  omap (λ e, match e with
             | EvInsertOne doc | EvUpdateOne _ doc _ => Some (JObj doc)
             | _ => None
             end) evs.

(** Two states at the same point of the network and of the clock. *)
Definition same_inputs (s1 s2 : state) : Prop :=
  requests s1 = requests s2 ∧ clock_reads s1 = clock_reads s2.

(* ================================================================= *)
(** ** Example worlds *)

Definition initial : state :=
  {| requests := 0; clock_reads := 0; writes := 0; trace := [] |}.

(** [int] on plain decimal numerals, which is all the examples need. *)
Fixpoint parse_digits (acc : Z) (s : string) : option Z :=
  match s with
  | EmptyString => Some acc
  | String c r =>
      match Ascii.is_nat c with
      | Some d => parse_digits (10 * acc + Z.of_nat d) r
      | None => None
      end
  end.

Definition parse_decimal (s : string) : option Z :=
  match s with
  | EmptyString => None
  | String _ _ => parse_digits 0 s
  end.

Definition example_text : string :=
  "# watchlist" +:+ String Str.LF
    ("8.8.8.8" +:+ String Str.CR (String Str.LF
       ("  1.1.1.1 " +:+ String Str.LF (String Str.LF "9.9.9.9")))).

Definition example_files (path : string) : option string :=
  if decide (path = "ip_list.txt") then Some example_text else None.

(** A world with an empty environment, the file [ip_list.txt], a store that
    takes every write, an operating system that grants every sleep, and the
    given endpoint and ping. *)
Definition example_world (replies : nat → string → reply)
    (ping : option exn) : world :=
  {| getenv := λ _, None;
     parse_int := parse_decimal;
     read_text := example_files;
     http_get := replies;
     os_sleep := λ _, None;
     utc_now := λ _, "2025-01-01T00:00:00+00:00";
     mongo_ping := ping;
     mongo_create_index := None;
     mongo_write := λ _, None |}.

Definition example_payload : json :=
  JObj {[ "indicator" := JStr "1.2.3.4";
          "alexa" := JObj {[ "rank" := JInt 500 ]};
          "pulse_info" := JObj {[ "count" := JInt 3 ]} ]}.

Definition too_many_requests : reply :=
  Response {| status_code := 429; body := None |}.

Definition ok_reply : reply :=
  Response {| status_code := 200; body := Some example_payload |}.

(** 429 on the first two requests, then 200 with a JSON body. *)
Definition rate_limited_twice (k : nat) (url : string) : reply :=
  match k with
  | 0%nat | 1%nat => too_many_requests
  | _ => ok_reply
  end.

Definition always_down (k : nat) (url : string) : reply :=
  Transport "connection refused".

Definition always_rate_limited (k : nat) (url : string) : reply :=
  too_many_requests.

Definition always_ok (k : nat) (url : string) : reply := ok_reply.

(** 200 on the first request, no connection afterwards. *)
Definition first_request_only (k : nat) (url : string) : reply :=
  match k with
  | 0%nat => ok_reply
  | _ => Transport "connection refused"
  end.

Definition example_collection : collection :=
  {| coll_db := "otx"; coll_name := "otx_ipv4_raw" |}.

(** 200 with a JSON body that is a list, not an object. *)
Definition list_reply (k : nat) (url : string) : reply :=
  Response {| status_code := 200; body := Some (JArr [JInt 1]) |}.

(** No connection on the first request, 200 afterwards. *)
Definition down_once (k : nat) (url : string) : reply :=
  match k with
  | 0%nat => Transport "connection refused"
  | _ => ok_reply
  end.

(** A world like [example_world] whose only file reads as [text]. *)
Definition world_with_file (text : string) : world :=
  {| getenv := λ _, None;
     parse_int := parse_decimal;
     read_text := λ path,
       if decide (path = "ip_list.txt") then Some text else None;
     http_get := always_ok;
     os_sleep := λ _, None;
     utc_now := λ _, "2025-01-01T00:00:00+00:00";
     mongo_ping := None;
     mongo_create_index := None;
     mongo_write := λ _, None |}.

Definition store_down : option exn :=
  Some (PyMongoError "server selection timed out").

(** A world whose [REQUEST_TIMEOUT] is no number and whose store cannot be
    reached. *)
Definition misconfigured_world : world :=
  {| getenv := λ name,
       if decide (name = "REQUEST_TIMEOUT") then Some "soon" else None;
     parse_int := parse_decimal;
     read_text := example_files;
     http_get := always_ok;
     os_sleep := λ _, None;
     utc_now := λ _, "2025-01-01T00:00:00+00:00";
     mongo_ping := store_down;
     mongo_create_index := None;
     mongo_write := λ _, None |}.

(* ================================================================= *)
(** ** Proof tactics *)

(** Unfolds the monad. *)
Ltac unfold_M :=
  unfold mbind, M_bind, mret, M_ret, raise, emit, try_except in *.

(** Equality of two states that differ by how their traces are
    bracketed. *)
Ltac state_eq :=
  unfold after_fetch, after_write, after_clock, record_events; simpl;
  f_equal; rewrite <- ?app_assoc; try done; try lia.

(** Closes the goals about the effects of one address. *)
Ltac effects_done :=
  split_and!; try done;
  try (by rewrite <- ?app_assoc); try (simpl; lia); try by constructor.

#[local] Set Warnings "-clear-no-such-hyp".

(* ================================================================= *)
(** ** Input collector *)

Section InputCollector.

Example strip_example : Str.strip "  8.8.8.8  " = "8.8.8.8".
Proof. reflexivity. Qed.

Example strip_inner_space : Str.strip " a b " = "a b".
Proof. reflexivity. Qed.

Example split_example :
  Str.split "," "1.1.1.1, 8.8.8.8,," = ["1.1.1.1"; " 8.8.8.8"; EmptyString;
                                        EmptyString].
Proof. reflexivity. Qed.

Example file_lines_example :
  Str.file_lines example_text
  = ["# watchlist" +:+ String Str.LF EmptyString;
     "8.8.8.8" +:+ String Str.LF EmptyString;
     "  1.1.1.1 " +:+ String Str.LF EmptyString;
     String Str.LF EmptyString;
     "9.9.9.9"].
Proof. reflexivity. Qed.

Lemma truthy_true (s : string) : Str.truthy s = true ↔ s ≠ EmptyString.
Proof. destruct s; simpl; split; congruence. Qed.

Lemma rstrip_cons_keep c r :
  Str.is_whitespace c = false →
  Str.rstrip (String c r) = String c (Str.rstrip r).
Proof. intros Hc. simpl. rewrite Hc. by destruct (Str.rstrip r). Qed.

(** The first character of a trimmed string is the first character of the
    string that is not whitespace. *)
Lemma strip_head (s : string) :
  match Str.first_non_whitespace s with
  | None => Str.strip s = EmptyString
  | Some c => ∃ r, Str.strip s = String c r
  end.
Proof.
  unfold Str.strip. induction s as [|c r IH]; simpl; [done|].
  destruct (Str.is_whitespace c) eqn:Hc; [done|].
  exists (Str.rstrip r). by apply rstrip_cons_keep.
Qed.

Lemma collect_line_keep (line : string) :
  Str.truthy (Str.strip line) && negb (Str.startswith "#" (Str.strip line))
  = negb (discarded_line line).
Proof.
  unfold discarded_line. pose proof (strip_head line) as H.
  destruct (Str.first_non_whitespace line) as [c|].
  - destruct H as [r ->]. simpl. done.
  - by rewrite H.
Qed.

Lemma foldl_collect_line (lines ips : list string) :
  foldl collect_line ips lines
  = ips ++ (Str.strip <$> filter (λ line, discarded_line line = false) lines).
Proof.
  revert ips. induction lines as [|line lines IH]; intros ips; simpl.
  - by rewrite app_nil_r.
  - rewrite IH. unfold collect_line. rewrite collect_line_keep.
    rewrite filter_cons.
    case_decide as Hd;
      rewrite Hd || (apply not_false_is_true in Hd; rewrite Hd); simpl.
    + by rewrite <- app_assoc.
    + done.
Qed.

Lemma fmap_filter_strip (l : list string) :
  Str.strip <$> filter (λ x, Str.truthy (Str.strip x) = true) l
  = filter (λ token, token ≠ EmptyString) (Str.strip <$> l).
Proof.
  induction l as [|x l IH]; [done|].
  rewrite fmap_cons, !filter_cons.
  destruct (decide (Str.truthy (Str.strip x) = true)) as [H|H].
  - rewrite decide_True by by apply truthy_true. by rewrite fmap_cons, IH.
  - rewrite decide_False; [done|]. by rewrite <- truthy_true.
Qed.

Lemma dedup_loop_remove_seen (l : list string) :
  ∀ (seen : gset string) (ordered earlier : list string),
    (∀ x, x ∈ seen ↔ x ∈ earlier) →
    dedup_loop l seen ordered = ordered ++ remove_seen_earlier earlier l.
Proof.
  induction l as [|a l IH]; intros seen ordered earlier Hseen; simpl.
  - by rewrite app_nil_r.
  - destruct (decide (a ∈ seen)) as [Hin|Hout].
    + rewrite decide_True by by apply Hseen.
      apply IH. intros x. rewrite Hseen, elem_of_app, list_elem_of_singleton.
      split; [tauto|]. intros [?| ->]; [done|]. by apply Hseen.
    + rewrite decide_False by by rewrite <- Hseen.
      rewrite (IH _ _ (earlier ++ [a])).
      * by rewrite <- app_assoc.
      * intros x.
        rewrite elem_of_union, elem_of_singleton, elem_of_app,
          list_elem_of_singleton, Hseen. tauto.
Qed.

Lemma seen_nothing (x : string) :
  x ∈ (∅ : gset string) ↔ x ∈ ([] : list string).
Proof. rewrite elem_of_nil. set_solver. Qed.

Lemma elem_of_remove_seen (l earlier : list string) (x : string) :
  x ∈ remove_seen_earlier earlier l ↔ x ∈ l ∧ x ∉ earlier.
Proof.
  revert earlier. induction l as [|a l IH]; intros earlier; simpl.
  - rewrite elem_of_nil. tauto.
  - destruct (decide (a ∈ earlier)) as [Ha|Ha].
    + rewrite IH, elem_of_cons, elem_of_app, list_elem_of_singleton.
      naive_solver.
    + rewrite !elem_of_cons, IH, elem_of_app, list_elem_of_singleton.
      destruct (decide (x = a)); naive_solver.
Qed.

Lemma NoDup_remove_seen (l earlier : list string) :
  NoDup (remove_seen_earlier earlier l).
Proof.
  revert earlier. induction l as [|a l IH]; intros earlier; simpl.
  - constructor.
  - destruct (decide (a ∈ earlier)); [apply IH|].
    constructor; [|apply IH].
    rewrite elem_of_remove_seen, elem_of_app, list_elem_of_singleton. tauto.
Qed.

Lemma sublist_remove_seen (l earlier : list string) :
  remove_seen_earlier earlier l `sublist_of` l.
Proof.
  revert earlier. induction l as [|a l IH]; intros earlier; simpl; [done|].
  destruct (decide (a ∈ earlier)).
  - by apply sublist_cons.
  - by apply sublist_skip.
Qed.

Lemma remove_seen_app (l1 l2 earlier : list string) :
  remove_seen_earlier earlier (l1 ++ l2)
  = remove_seen_earlier earlier l1 ++ remove_seen_earlier (earlier ++ l1) l2.
Proof.
  revert earlier. induction l1 as [|a l1 IH]; intros earlier; simpl.
  - by rewrite app_nil_r.
  - rewrite IH, <- app_assoc. simpl. by destruct (decide (a ∈ earlier)).
Qed.

(** An element of the result stands for its first occurrence: what is
    kept before it comes from before that occurrence, what is kept after it
    has not occurred up to there. *)
Lemma remove_seen_split (l : list string) :
  ∀ (earlier l1 l2 : list string) (x : string),
    remove_seen_earlier earlier l = l1 ++ x :: l2 →
    ∃ c1 c2,
      l = c1 ++ x :: c2 ∧ (x ∉ earlier) ∧ (x ∉ c1) ∧
      l1 = remove_seen_earlier earlier c1 ∧
      l2 = remove_seen_earlier (earlier ++ c1 ++ [x]) c2.
Proof.
  induction l as [|a l IH]; intros earlier l1 l2 x; simpl.
  - by destruct l1.
  - destruct (decide (a ∈ earlier)) as [Ha|Ha].
    + intros (c1 & c2 & -> & Hx & Hc1 & -> & ->)%IH.
      exists (a :: c1), c2. simpl. rewrite decide_True by done.
      rewrite elem_of_app, list_elem_of_singleton in Hx.
      split_and!; [done|tauto| |done|by rewrite <- !app_assoc].
      rewrite elem_of_cons. tauto.
    + destruct l1 as [|b l1]; simpl.
      * intros [= -> <-]. exists [], l. rewrite elem_of_nil.
        split_and!; try done. tauto.
      * intros [= -> (c1 & c2 & -> & Hx & Hc1 & -> & ->)%IH].
        exists (b :: c1), c2. simpl. rewrite decide_False by done.
        rewrite elem_of_app, list_elem_of_singleton in Hx.
        split_and!; [done|tauto| |done|by rewrite <- !app_assoc].
        rewrite elem_of_cons. tauto.
Qed.

Lemma iter_ips_from_args_eq W ips_arg ips_file contents s :
  opened W ips_file contents →
  iter_ips_from_args W ips_arg ips_file s
  = (Ok (remove_seen_earlier []
           (inline_addresses ips_arg ++ file_addresses contents)), s).
Proof.
  intros Hopen. unfold iter_ips_from_args.
  assert (Hin : match ips_arg with
                | Some arg =>
                    if Str.truthy arg
                    then [] ++ (Str.strip <$>
                           filter (λ x, Str.truthy (Str.strip x) = true)
                                  (Str.split "," arg))
                    else []
                | None => []
                end = inline_addresses ips_arg).
  { destruct ips_arg as [arg|]; [|done]. simpl.
    destruct arg; simpl; [done|]. apply fmap_filter_strip. }
  rewrite Hin. clear Hin.
  destruct Hopen as [| |path text Hpath Hread]; simpl.
  - unfold mbind, M_bind, mret, M_ret. simpl. rewrite app_nil_r.
    by rewrite (dedup_loop_remove_seen _ ∅ [] []) by apply seen_nothing.
  - unfold mbind, M_bind, mret, M_ret. simpl. rewrite app_nil_r.
    by rewrite (dedup_loop_remove_seen _ ∅ [] []) by apply seen_nothing.
  - rewrite Hpath. unfold mbind, M_bind, mret, M_ret, open_text.
    rewrite Hread. simpl. rewrite foldl_collect_line.
    by rewrite (dedup_loop_remove_seen _ ∅ [] []) by apply seen_nothing.
Qed.

(** C7 (input collector).  For every optional comma-separated string and
    every optional file, the collector returns the inline tokens (split on
    the comma, trimmed, empty tokens dropped) followed by the file lines
    (trimmed, blank lines and lines whose first character that is not
    whitespace is the hash sign dropped), with every address that occurs
    earlier in that combined order removed: inline addresses come before
    file addresses, no address occurs twice, every address of either source
    occurs, and the order of first appearance is kept (an address of the
    output stands where it first occurs in the combined list: the output
    before it comes from before that place, the output after it does not
    occur up to that place).  The state is left as it was. *)
Theorem input_collector_dedups_in_order (W : world)
    (ips_arg ips_file contents : option string) (s : state) :
  opened W ips_file contents →
  ∃ out,
    iter_ips_from_args W ips_arg ips_file s = (Ok out, s) ∧
    out = remove_seen_earlier []
            (inline_addresses ips_arg ++ file_addresses contents) ∧
    out = remove_seen_earlier [] (inline_addresses ips_arg)
          ++ remove_seen_earlier (inline_addresses ips_arg)
                                 (file_addresses contents) ∧
    NoDup out ∧
    (∀ x, x ∈ out ↔ x ∈ inline_addresses ips_arg ++ file_addresses contents) ∧
    out `sublist_of` inline_addresses ips_arg ++ file_addresses contents ∧
    (∀ before x after,
       out = before ++ x :: after →
       ∃ c1 c2,
         inline_addresses ips_arg ++ file_addresses contents = c1 ++ x :: c2 ∧
         (x ∉ c1) ∧
         (∀ y, y ∈ before → y ∈ c1) ∧
         (∀ y, y ∈ after → y ∉ c1)).
Proof.
  intros Hopen. eexists. split; [by apply iter_ips_from_args_eq|].
  split; [done|]. split; [by rewrite remove_seen_app|].
  split; [apply NoDup_remove_seen|]. split; [|split].
  - intros x. rewrite elem_of_remove_seen, elem_of_nil. tauto.
  - apply sublist_remove_seen.
  - intros before x after (c1 & c2 & Hc & _ & Hx & -> & ->)%remove_seen_split.
    exists c1, c2. split_and!; [done..| |].
    + intros y. rewrite elem_of_remove_seen. tauto.
    + intros y. rewrite elem_of_remove_seen, !elem_of_app. tauto.
Qed.

Lemma input_collector_dedups_in_order_witness :
  opened (example_world always_ok None) (Some "ip_list.txt")
         (Some example_text)
  ∧ iter_ips_from_args (example_world always_ok None)
      (Some " 1.1.1.1, 9.9.9.9,,1.1.1.1 ") (Some "ip_list.txt") initial
    = (Ok ["1.1.1.1"; "9.9.9.9"; "8.8.8.8"], initial).
Proof.
  assert (Hopen : opened (example_world always_ok None) (Some "ip_list.txt")
                         (Some example_text))
    by (apply opened_file; reflexivity).
  split; [exact Hopen|].
  destruct (input_collector_dedups_in_order (example_world always_ok None)
              (Some " 1.1.1.1, 9.9.9.9,,1.1.1.1 ") (Some "ip_list.txt")
              (Some example_text) initial Hopen) as (out & Hrun & Hout & _).
  rewrite Hrun, Hout. reflexivity.
Defined.

End InputCollector.

(* ================================================================= *)
(** ** Fetcher *)

Lemma after_fetch_after_fetch n m evs evs' s :
  after_fetch n evs (after_fetch m evs' s)
  = after_fetch (m + n) (evs' ++ evs) s.
Proof. state_eq. Qed.

Lemma after_fetch_nil s : after_fetch 0 [] s = s.
Proof. destruct s. unfold after_fetch. simpl. by rewrite app_nil_r. Qed.

Section FetchLemmas.

Context (W : world) (ip : string) (headers : gmap string string).
Context (timeout max_retries backoff : Z).

#[local] Abbreviation url := (OTX_URL_TEMPLATE_format ip).
#[local] Abbreviation attempt_step attempt :=
  (try_except (attempt_body W headers timeout backoff url attempt)
              is_request_or_json_error
              (attempt_handler W ip max_retries backoff attempt)).
#[local] Abbreviation get := (EvGet url headers timeout).

Lemma time_sleep_ok (seconds : Z) (s : state) :
  sleep_refusal W seconds = None →
  time_sleep W seconds s = (Ok tt, record_events [EvSleep seconds] s).
Proof. intros H. unfold time_sleep. by rewrite H. Qed.

Lemma time_sleep_refused (seconds : Z) (e : exn) (s : state) :
  sleep_refusal W seconds = Some e → time_sleep W seconds s = (Raise e, s).
Proof. intros H. unfold time_sleep. by rewrite H. Qed.

(** What [time.sleep] raises is not of the classes the fetcher catches. *)
Lemma sleep_refusal_passes (seconds : Z) (e : exn) :
  sleep_refusal W seconds = Some e → is_request_or_json_error e = false.
Proof.
  unfold sleep_refusal. repeat case_match; try (by intros [= <-]).
  destruct (os_sleep W seconds); by intros [= <-].
Qed.

(** A length between zero and the longest sleep is refused by the
    operating system or not at all. *)
Lemma sleep_refusal_in_range (seconds : Z) :
  0 ≤ seconds ≤ longest_sleep →
  sleep_refusal W seconds = OSError <$> os_sleep W seconds.
Proof.
  intros H. unfold sleep_refusal.
  assert ((seconds <? - longest_sleep) || (longest_sleep <? seconds) = false)
    as -> by (apply orb_false_iff; unfold longest_sleep in *; lia).
  by assert ((seconds <? 0) = false) as -> by lia.
Qed.

(** A negative length is always refused. *)
Lemma sleep_refusal_negative (seconds : Z) :
  seconds < 0 →
  sleep_refusal W seconds
  = Some (if seconds <? - longest_sleep
          then OverflowError "timestamp too large to convert to C _PyTime_t"
          else sleep_refused).
Proof.
  intros H. unfold sleep_refusal.
  destruct (seconds <? - longest_sleep) eqn:Hlow; [done|].
  assert ((longest_sleep <? seconds) = false) as ->
      by (unfold longest_sleep; lia).
  by assert ((seconds <? 0) = true) as -> by lia.
Qed.

(** One attempt, by the timeout and by the verdict on its reply. *)
Lemma attempt_step_verdict (attempt : Z) (s : state) :
  attempt_step attempt s
  = if timeout <=? 0 then (Raise (timeout_refused timeout), s)
    else
      match verdict_of (http_get W (requests s) url) with
      | Delivered payload => (Ok (Return payload), after_fetch 1 [get] s)
      | Limited =>
          match sleep_refusal W (backoff * attempt) with
          | Some e =>
              (Raise e,
               after_fetch 1 [get; EvWarnRateLimited attempt
                                                     (backoff * attempt)] s)
          | None =>
              (Ok Continue,
               after_fetch 1 [get;
                              EvWarnRateLimited attempt (backoff * attempt);
                              EvSleep (backoff * attempt)] s)
          end
      | Broken e =>
          if attempt =? max_retries then (Raise e, after_fetch 1 [get] s)
          else
            match sleep_refusal W (backoff * attempt) with
            | Some e' =>
                (Raise e',
                 after_fetch 1 [get; EvWarnRetry ip attempt max_retries e
                                                 (backoff * attempt)] s)
            | None =>
                (Ok Continue,
                 after_fetch 1 [get; EvWarnRetry ip attempt max_retries e
                                                 (backoff * attempt);
                                EvSleep (backoff * attempt)] s)
            end
      | Fatal e => (Raise e, after_fetch 1 [get] s)
      end.
Proof.
  assert (∀ e s0,
            attempt_handler W ip max_retries backoff attempt e s0
            = if attempt =? max_retries then (Raise e, s0)
              else match sleep_refusal W (backoff * attempt) with
                   | Some e' =>
                       (Raise e',
                        record_events
                          [EvWarnRetry ip attempt max_retries e
                                       (backoff * attempt)] s0)
                   | None =>
                       (Ok Continue,
                        record_events
                          [EvWarnRetry ip attempt max_retries e
                                       (backoff * attempt);
                           EvSleep (backoff * attempt)] s0)
                   end) as Hhandler.
  { intros e s0. unfold attempt_handler.
    destruct (attempt =? max_retries); [done|]. unfold_M.
    destruct (sleep_refusal W (backoff * attempt)) as [e'|] eqn:Hsl.
    - by rewrite (time_sleep_refused _ e').
    - rewrite time_sleep_ok by done. f_equal. state_eq. }
  unfold try_except, attempt_body, requests_get, raise_for_status, resp_json,
    verdict_of.
  unfold mbind, M_bind, mret, M_ret, raise, emit.
  destruct (timeout <=? 0); [done|].
  destruct (http_get W (requests s) url) as [detail|[status bd]|e]; simpl.
  - rewrite Hhandler. repeat case_match; f_equal; state_eq.
  - destruct (status =? 429).
    { destruct (sleep_refusal W (backoff * attempt)) as [e'|] eqn:Hsl.
      - rewrite (time_sleep_refused _ e') by done.
        rewrite (sleep_refusal_passes _ _ Hsl). f_equal. state_eq.
      - rewrite time_sleep_ok by done. f_equal. state_eq. }
    destruct ((400 <=? status) && (status <? 600)); simpl.
    { rewrite Hhandler. repeat case_match; f_equal; state_eq. }
    destruct bd as [payload|]; simpl; [done|].
    rewrite Hhandler. repeat case_match; f_equal; state_eq.
  - destruct (is_request_or_json_error e); [|done].
    rewrite Hhandler. repeat case_match; f_equal; state_eq.
Qed.

Lemma attempt_fails_caught r e :
  attempt_fails r e → is_request_or_json_error e = true.
Proof. by destruct 1. Qed.

Lemma attempt_fails_verdict r e : attempt_fails r e → verdict_of r = Broken e.
Proof.
  destruct 1 as [detail|status H429 Herr|status bd H429 Herr]; simpl; [done|..].
  - rewrite (proj2 (Z.eqb_neq _ _) H429).
    by assert ((400 <=? status) && (status <? 600) = false) as ->
        by (apply andb_false_iff; lia).
  - rewrite (proj2 (Z.eqb_neq _ _) H429).
    by assert ((400 <=? status) && (status <? 600) = true) as ->
        by (apply andb_true_iff; lia).
Qed.

Lemma rate_limited_verdict r : rate_limited r → verdict_of r = Limited.
Proof. intros (resp & -> & H429). simpl. by rewrite H429. Qed.

Lemma succeeds_with_verdict r payload :
  succeeds_with r payload → verdict_of r = Delivered payload.
Proof.
  intros (resp & -> & Hst & Hb). simpl.
  assert ((status_code resp =? 429) = false) as -> by (apply Z.eqb_neq; lia).
  assert ((400 <=? status_code resp) && (status_code resp <? 600) = false)
    as -> by (apply andb_false_iff; lia).
  by rewrite Hb.
Qed.

Lemma step_fails_final attempt s e :
  0 < timeout →
  attempt_fails (http_get W (requests s) url) e →
  attempt = max_retries →
  attempt_step attempt s = (Raise e, after_fetch 1 [get] s).
Proof.
  intros Ht Hf ->. rewrite attempt_step_verdict, (attempt_fails_verdict _ _ Hf).
  rewrite Z.eqb_refl. by assert ((timeout <=? 0) = false) as -> by lia.
Qed.

Lemma step_fails_retry attempt s e :
  0 < timeout →
  attempt_fails (http_get W (requests s) url) e →
  attempt ≠ max_retries →
  sleep_refusal W (backoff * attempt) = None →
  attempt_step attempt s
  = (Ok Continue,
     after_fetch 1 [get;
                    EvWarnRetry ip attempt max_retries e (backoff * attempt);
                    EvSleep (backoff * attempt)] s).
Proof.
  intros Ht Hf Hne Hs.
  rewrite attempt_step_verdict, (attempt_fails_verdict _ _ Hf), Hs.
  rewrite (proj2 (Z.eqb_neq _ _) Hne).
  by assert ((timeout <=? 0) = false) as -> by lia.
Qed.

Lemma step_rate_limited attempt s :
  0 < timeout →
  rate_limited (http_get W (requests s) url) →
  sleep_refusal W (backoff * attempt) = None →
  attempt_step attempt s
  = (Ok Continue,
     after_fetch 1 [get;
                    EvWarnRateLimited attempt (backoff * attempt);
                    EvSleep (backoff * attempt)] s).
Proof.
  intros Ht Hr Hs. rewrite attempt_step_verdict, (rate_limited_verdict _ Hr), Hs.
  by assert ((timeout <=? 0) = false) as -> by lia.
Qed.

Lemma step_success attempt s payload :
  0 < timeout →
  succeeds_with (http_get W (requests s) url) payload →
  attempt_step attempt s = (Ok (Return payload), after_fetch 1 [get] s).
Proof.
  intros Ht Hr. rewrite attempt_step_verdict, (succeeds_with_verdict _ _ Hr).
  by assert ((timeout <=? 0) = false) as -> by lia.
Qed.

Lemma fetch_loop_cons url' attempt rest s :
  fetch_loop W ip headers timeout max_retries backoff url' (attempt :: rest) s
  = match try_except (attempt_body W headers timeout backoff url' attempt)
                     is_request_or_json_error
                     (attempt_handler W ip max_retries backoff attempt) s with
    | (Ok Continue, s') =>
        fetch_loop W ip headers timeout max_retries backoff url' rest s'
    | (Ok (Return payload), s') => (Ok payload, s')
    | (Raise e, s') => (Raise e, s')
    end.
Proof.
  simpl. unfold mbind, M_bind, mret, M_ret.
  destruct (try_except _ _ _ s) as [[[|payload]|e] s']; done.
Qed.

Lemma range1_succ (n : nat) :
  range1 (Z.of_nat (S n)) = Z.of_nat <$> seq 1 n.
Proof. unfold range1. do 2 f_equal. lia. Qed.

#[local] Abbreviation loop attempts :=
  (fetch_loop W ip headers timeout max_retries backoff url attempts).

(** Every attempt fails: the last one raises, the earlier ones sleep. *)
Lemma fetch_loop_all_fail (n : nat) :
  ∀ (a : nat) (s : state),
    Z.of_nat (a + n) = max_retries →
    0 < timeout →
    (∀ k, (k < n)%nat → sleep_refusal W (backoff * Z.of_nat (a + k)) = None) →
    (∀ k, (k ≤ n)%nat →
          ∃ e, attempt_fails (http_get W (k + requests s) url) e) →
    ∃ e evs,
      attempt_fails (http_get W (n + requests s) url) e ∧
      loop (Z.of_nat <$> seq a (S n)) s = (Raise e, after_fetch (S n) evs s) ∧
      requested evs = replicate (S n) url ∧
      sleeps evs = (λ attempt, backoff * attempt) <$> (Z.of_nat <$> seq a n).
Proof.
  induction n as [|n IH]; intros a s Hmax Ht Hsleep Hfail.
  - destruct (Hfail 0%nat) as [e He]; [lia|].
    exists e, [get]. split; [done|].
    change (seq a 1) with [a]. rewrite fmap_cons, fetch_loop_cons.
    rewrite (step_fails_final _ _ _ Ht He) by lia. done.
  - destruct (Hfail 0%nat) as [e0 He0]; [lia|].
    change (seq a (S (S n))) with (a :: seq (S a) (S n)).
    rewrite fmap_cons, fetch_loop_cons.
    rewrite (step_fails_retry _ _ _ Ht He0);
      [|lia|by rewrite <- (Hsleep 0%nat ltac:(lia)), Nat.add_0_r].
    match goal with |- context [after_fetch 1 ?evs s] => set (evs1 := evs) end.
    destruct (IH (S a) (after_fetch 1 evs1 s))
      as (e & evs & He & Hrun & Hreq & Hsl).
    + lia.
    + done.
    + intros k Hk. rewrite <- (Hsleep (S k)) by lia. do 2 f_equal. lia.
    + intros k Hk. destruct (Hfail (S k)) as [e He]; [lia|].
      exists e. simpl.
      by replace (k + S (requests s))%nat with (S k + requests s)%nat by lia.
    + exists e, (evs1 ++ evs). split; [|split; [|split]].
      * simpl in He.
        by replace (S n + requests s)%nat with (n + S (requests s))%nat by lia.
      * rewrite Hrun. by rewrite after_fetch_after_fetch.
      * unfold requested in *. rewrite omap_app, Hreq. done.
      * unfold sleeps in *. rewrite omap_app, Hsl. done.
Qed.

(** Every attempt is rate limited: the loop runs out and the statement
    after it raises. *)
Lemma fetch_loop_all_rate_limited (n : nat) :
  ∀ (a : nat) (s : state),
    0 < timeout →
    (∀ k, (k < n)%nat → sleep_refusal W (backoff * Z.of_nat (a + k)) = None) →
    (∀ k, (k < n)%nat → rate_limited (http_get W (k + requests s) url)) →
    ∃ evs,
      loop (Z.of_nat <$> seq a n) s = (Raise fall_through, after_fetch n evs s) ∧
      requested evs = replicate n url ∧
      sleeps evs = (λ attempt, backoff * attempt) <$> (Z.of_nat <$> seq a n).
Proof.
  induction n as [|n IH]; intros a s Ht Hsleep Hlim.
  - exists []. simpl. split; [|done]. unfold raise. by rewrite after_fetch_nil.
  - change (seq a (S n)) with (a :: seq (S a) n).
    rewrite fmap_cons, fetch_loop_cons.
    rewrite step_rate_limited;
      [|done|apply (Hlim 0%nat); lia
       |by rewrite <- (Hsleep 0%nat ltac:(lia)), Nat.add_0_r].
    match goal with |- context [after_fetch 1 ?evs s] => set (evs1 := evs) end.
    destruct (IH (S a) (after_fetch 1 evs1 s)) as (evs & Hrun & Hreq & Hsl).
    + done.
    + intros k Hk. rewrite <- (Hsleep (S k)) by lia. do 2 f_equal. lia.
    + intros k Hk. simpl.
      replace (k + S (requests s))%nat with (S k + requests s)%nat by lia.
      apply Hlim. lia.
    + exists (evs1 ++ evs). split; [|split].
      * rewrite Hrun. by rewrite after_fetch_after_fetch.
      * unfold requested in *. rewrite omap_app, Hreq. done.
      * unfold sleeps in *. rewrite omap_app, Hsl. done.
Qed.

(** One attempt, whatever the reply: at most one request, with the URL, the
    headers and the timeout of the call, and events of the fetcher only.  An
    attempt that goes on to the next one has slept [backoff * attempt]; an
    attempt that ends the loop has not slept. *)
Lemma attempt_step_shape (attempt : Z) (s : state) :
  ∃ n evs,
    (attempt_step attempt s).2 = after_fetch n evs s ∧
    (n ≤ 1)%nat ∧
    gets evs = replicate n (url, headers, timeout) ∧
    Forall (λ e, is_fetch_event e = true) evs ∧
    sleeps evs = match (attempt_step attempt s).1 with
                 | Ok Continue => [backoff * attempt]
                 | _ => []
                 end.
Proof.
  rewrite attempt_step_verdict.
  destruct (timeout <=? 0).
  { exists 0%nat, []. rewrite after_fetch_nil. split_and!; try done. lia. }
  exists 1%nat.
  destruct (verdict_of _) as [payload| |e|e];
    repeat (case_match; simpl);
    eexists; (split; [reflexivity|]); split_and!; try done;
    repeat constructor.
Qed.

Lemma attempt_step_frame attempt s :
  ∃ n evs,
    (attempt_step attempt s).2 = after_fetch n evs s ∧
    Forall (λ e, is_fetch_event e = true) evs.
Proof.
  destruct (attempt_step_shape attempt s) as (n & evs & Hs & _ & _ & Hev & _).
  by exists n, evs.
Qed.

Lemma fetch_loop_frame attempts :
  ∀ s, ∃ n evs,
    (loop attempts s).2 = after_fetch n evs s ∧
    Forall (λ e, is_fetch_event e = true) evs.
Proof.
  induction attempts as [|attempt rest IH]; intros s.
  - exists 0%nat, []. split; [|done]. simpl. by rewrite after_fetch_nil.
  - rewrite fetch_loop_cons.
    destruct (attempt_step_frame attempt s) as (n1 & evs1 & Hs1 & Hev1).
    destruct (attempt_step attempt s) as [[[|payload]|e] s1]; simpl in Hs1;
      subst s1.
    + destruct (IH (after_fetch n1 evs1 s)) as (n & evs & Hs & Hev).
      exists (n1 + n)%nat, (evs1 ++ evs).
      rewrite Hs, after_fetch_after_fetch. by rewrite Forall_app.
    + by exists n1, evs1.
    + by exists n1, evs1.
Qed.

End FetchLemmas.

(** C1 (fetcher), as the code has it.  With [max_retries = 3], a timeout
    that is positive and a backoff unit whose sleeps of [backoff * 1] and
    [backoff * 2] seconds [time.sleep] grants: when the first two attempts
    are answered 429 and the third by a 2xx response whose body is valid
    JSON, the fetcher returns the payload of the third attempt after three
    requests, and exactly two backoff sleeps occur, of [backoff * 1] and
    [backoff * 2] seconds. *)
Theorem fetch_two_rate_limits_then_success (W : world) (ip : string)
    (headers : gmap string string) (timeout backoff : Z) (payload : json)
    (s : state) :
  0 < timeout →
  sleep_refusal W (backoff * 1) = None →
  sleep_refusal W (backoff * 2) = None →
  rate_limited (http_get W (requests s) (OTX_URL_TEMPLATE_format ip)) →
  rate_limited (http_get W (1 + requests s) (OTX_URL_TEMPLATE_format ip)) →
  succeeds_with (http_get W (2 + requests s) (OTX_URL_TEMPLATE_format ip))
                payload →
  ∃ evs,
    fetch_otx_general W ip headers timeout 3 backoff s
    = (Ok payload, after_fetch 3 evs s) ∧
    requested evs = replicate 3 (OTX_URL_TEMPLATE_format ip) ∧
    sleeps evs = [backoff * 1; backoff * 2].
Proof.
  intros Ht Hs1 Hs2 H1 H2 H3. unfold fetch_otx_general.
  change (range1 (3 + 1)) with [1; 2; 3].
  rewrite fetch_loop_cons, step_rate_limited by done.
  rewrite fetch_loop_cons, step_rate_limited by done.
  rewrite fetch_loop_cons, (step_success _ _ _ _ _ _ _ _ payload) by done.
  rewrite !after_fetch_after_fetch. eexists. split; [reflexivity|]. done.
Qed.

Lemma fetch_two_rate_limits_then_success_witness :
  0 < 20 ∧
  sleep_refusal (example_world rate_limited_twice None) (2 * 1) = None ∧
  sleep_refusal (example_world rate_limited_twice None) (2 * 2) = None ∧
  ∃ evs,
    fetch_otx_general (example_world rate_limited_twice None) "8.8.8.8" ∅
                      20 3 2 initial
    = (Ok example_payload, after_fetch 3 evs initial) ∧
    requested evs = replicate 3 (OTX_URL_TEMPLATE_format "8.8.8.8") ∧
    sleeps evs = [2 * 1; 2 * 2].
Proof.
  split; [lia|]. split; [reflexivity|]. split; [reflexivity|].
  apply (fetch_two_rate_limits_then_success
           (example_world rate_limited_twice None) "8.8.8.8" ∅ 20 2
           example_payload initial).
  - lia.
  - reflexivity.
  - reflexivity.
  - eexists. split; reflexivity.
  - eexists. split; reflexivity.
  - eexists. split; [reflexivity|]. split; [simpl; lia|reflexivity].
Defined.

(** C1, as stated, fails.  The endpoint answers 429, 429 and then 200 with
    a JSON body, and [max_retries] is 3; yet with a backoff of [-1] the
    first sleep raises [ValueError] and with a backoff of [10^10] it raises
    [OverflowError], both after one request and without any sleep, and with
    a timeout of [0] the first request is refused before it is sent. *)
Lemma fetch_two_rate_limits_sleep_refused :
  rate_limited (http_get (example_world rate_limited_twice None) 0
                         (OTX_URL_TEMPLATE_format "8.8.8.8")) ∧
  rate_limited (http_get (example_world rate_limited_twice None) 1
                         (OTX_URL_TEMPLATE_format "8.8.8.8")) ∧
  succeeds_with (http_get (example_world rate_limited_twice None) 2
                          (OTX_URL_TEMPLATE_format "8.8.8.8"))
                example_payload ∧
  fetch_otx_general (example_world rate_limited_twice None) "8.8.8.8" ∅
                    20 3 (-1) initial
  = (Raise (ValueError "sleep length must be non-negative"),
     after_fetch 1 [EvGet (OTX_URL_TEMPLATE_format "8.8.8.8") ∅ 20;
                    EvWarnRateLimited 1 (-1)] initial) ∧
  fetch_otx_general (example_world rate_limited_twice None) "8.8.8.8" ∅
                    20 3 10000000000 initial
  = (Raise (OverflowError "timestamp too large to convert to C _PyTime_t"),
     after_fetch 1 [EvGet (OTX_URL_TEMPLATE_format "8.8.8.8") ∅ 20;
                    EvWarnRateLimited 1 10000000000] initial) ∧
  fetch_otx_general (example_world rate_limited_twice None) "8.8.8.8" ∅
                    0 3 2 initial
  = (Raise (timeout_refused 0), initial).
Proof.
  split_and!; try reflexivity.
  - eexists. split; reflexivity.
  - eexists. split; reflexivity.
  - eexists. split; [reflexivity|]. split; [simpl; lia|reflexivity].
Qed.

(** C3 (fetcher), as the code has it.  With [max_retries = N], [N >= 1], a
    timeout that is positive and a backoff unit whose sleeps of
    [backoff * 1], ..., [backoff * (N - 1)] seconds [time.sleep] grants:
    when every attempt fails (a transport failure, a body that is not JSON,
    or an error status), exactly [N] requests are made, the failure of the
    last attempt is what the caller gets, and after each attempt but the
    last one there is one backoff sleep of [backoff * attempt] seconds. *)
Theorem fetch_every_attempt_fails (W : world) (ip : string)
    (headers : gmap string string) (timeout N backoff : Z) (s : state) :
  1 ≤ N →
  0 < timeout →
  (∀ attempt, 1 ≤ attempt < N → sleep_refusal W (backoff * attempt) = None) →
  (∀ k, (k < Z.to_nat N)%nat →
        ∃ e, attempt_fails
               (http_get W (k + requests s) (OTX_URL_TEMPLATE_format ip)) e) →
  ∃ e evs,
    attempt_fails
      (http_get W (Z.to_nat N - 1 + requests s) (OTX_URL_TEMPLATE_format ip))
      e ∧
    fetch_otx_general W ip headers timeout N backoff s
    = (Raise e, after_fetch (Z.to_nat N) evs s) ∧
    requested evs = replicate (Z.to_nat N) (OTX_URL_TEMPLATE_format ip) ∧
    sleeps evs = (λ attempt, backoff * attempt) <$> range1 N.
Proof.
  intros HN Ht Hsleep Hfail. unfold fetch_otx_general, range1.
  replace (N + 1 - 1) with N by lia.
  destruct (Z.to_nat N) as [|n] eqn:HNn; [lia|].
  replace (S n - 1)%nat with n by lia.
  replace (Z.to_nat (N - 1)) with n by lia.
  apply fetch_loop_all_fail; [lia|done| |].
  - intros k Hk. apply Hsleep. lia.
  - intros k Hk. apply Hfail. lia.
Qed.

Lemma fetch_every_attempt_fails_witness :
  1 ≤ 3 ∧ 0 < 20 ∧
  ∃ evs,
    fetch_otx_general (example_world always_down None) "8.8.8.8" ∅ 20 3 2
                      initial
    = (Raise (RequestException "connection refused"),
       after_fetch 3 evs initial) ∧
    requested evs = replicate 3 (OTX_URL_TEMPLATE_format "8.8.8.8") ∧
    sleeps evs = [2 * 1; 2 * 2].
Proof.
  split; [lia|]. split; [lia|].
  destruct (fetch_every_attempt_fails (example_world always_down None)
              "8.8.8.8" ∅ 20 3 2 initial) as (e & evs & He & Hrun & Hev).
  - lia.
  - lia.
  - intros attempt Hattempt.
    rewrite sleep_refusal_in_range by (unfold longest_sleep; lia). done.
  - intros k _. eexists. apply fails_transport.
  - inversion He; subst. by exists evs.
Defined.

(** C3, as stated, fails.  Every attempt fails at the transport level and
    [max_retries] is 3; yet with a backoff of [-1] the first sleep raises
    [ValueError] and with a backoff of [10^10] it raises [OverflowError]:
    one request is made instead of three and the caller gets the failure of
    the sleep, not that of an attempt.  With a timeout of [0] no request is
    made at all. *)
Lemma fetch_every_attempt_fails_sleep_refused :
  (∀ k, attempt_fails (http_get (example_world always_down None) k
                                (OTX_URL_TEMPLATE_format "8.8.8.8"))
                      (RequestException "connection refused")) ∧
  fetch_otx_general (example_world always_down None) "8.8.8.8" ∅ 20 3 (-1)
                    initial
  = (Raise (ValueError "sleep length must be non-negative"),
     after_fetch 1 [EvGet (OTX_URL_TEMPLATE_format "8.8.8.8") ∅ 20;
                    EvWarnRetry "8.8.8.8" 1 3
                      (RequestException "connection refused") (-1)] initial) ∧
  fetch_otx_general (example_world always_down None) "8.8.8.8" ∅ 20 3
                    10000000000 initial
  = (Raise (OverflowError "timestamp too large to convert to C _PyTime_t"),
     after_fetch 1 [EvGet (OTX_URL_TEMPLATE_format "8.8.8.8") ∅ 20;
                    EvWarnRetry "8.8.8.8" 1 3
                      (RequestException "connection refused") 10000000000]
                 initial) ∧
  fetch_otx_general (example_world always_down None) "8.8.8.8" ∅ 0 3 2
                    initial
  = (Raise (timeout_refused 0), initial).
Proof.
  split_and!; try reflexivity. intros k. apply fails_transport.
Qed.

(** C4 (fetcher), evaluated where it fails.  With a timeout that is positive
    and sleeps that [time.sleep] grants: when every attempt is answered 429,
    also the last one, the loop ends by its [continue], and the statement
    after the loop raises "Exhausted retries unexpectedly": the caller gets
    neither a payload nor the failure of an attempt. *)
Theorem fetch_rate_limited_to_the_end_falls_through (n b : nat) (ip : string)
    (headers : gmap string string) (timeout : Z) (s : state) :
  0 < timeout →
  Z.of_nat b * Z.of_nat (S n) ≤ longest_sleep →
  ∃ evs,
    fetch_otx_general (example_world always_rate_limited None) ip headers
                      timeout (Z.of_nat (S n)) (Z.of_nat b) s
    = (Raise (RuntimeError "Exhausted retries unexpectedly"),
       after_fetch (S n) evs s) ∧
    requested evs = replicate (S n) (OTX_URL_TEMPLATE_format ip) ∧
    length (sleeps evs) = S n.
Proof.
  intros Ht Hb. unfold fetch_otx_general.
  replace (Z.of_nat (S n) + 1) with (Z.of_nat (S (S n))) by lia.
  rewrite range1_succ.
  destruct (fetch_loop_all_rate_limited (example_world always_rate_limited None)
              ip headers timeout (Z.of_nat (S n)) (Z.of_nat b) (S n) 1 s)
    as (evs & Hrun & Hreq & Hsl).
  - done.
  - intros k Hk. rewrite sleep_refusal_in_range by nia. done.
  - intros k _. eexists. split; reflexivity.
  - exists evs. rewrite Hsl, !length_fmap, length_seq. done.
Qed.

Lemma fetch_rate_limited_to_the_end_falls_through_witness :
  0 < 20 ∧ Z.of_nat 2 * Z.of_nat 1 ≤ longest_sleep ∧
  ∃ evs,
    fetch_otx_general (example_world always_rate_limited None) "8.8.8.8" ∅
                      20 1 2 initial
    = (Raise (RuntimeError "Exhausted retries unexpectedly"),
       after_fetch 1 evs initial) ∧
    requested evs = [OTX_URL_TEMPLATE_format "8.8.8.8"] ∧
    length (sleeps evs) = 1%nat.
Proof.
  split; [lia|]. split; [by vm_compute|].
  apply (fetch_rate_limited_to_the_end_falls_through 0 2 "8.8.8.8" ∅ 20
           initial); [lia|by vm_compute].
Defined.

(* ================================================================= *)
(** ** Transformer *)

Section Transformer.

Context (W : world).

(** The guarded chained lookup
    [payload.get(name, {}).get(field) if isinstance(payload.get(name), dict)
     else None] never raises and yields the nested field. *)
Lemma guarded_nested_get (payload : gmap string json) (name field : string)
    (s : state) :
  (inner ← py_get (JObj payload) name JNull;
   if is_dict inner
   then a ← py_get (JObj payload) name (JObj ∅); py_get a field JNull
   else mret JNull) s
  = (Ok (nested_field payload name field), s).
Proof.
  unfold nested_field, py_get. unfold_M.
  destruct (payload !! name) as [[]|]; simpl; done.
Qed.

Lemma transform_object (ip : string) (payload : gmap string json)
    (s : state) :
  transform W ip (JObj payload) s
  = (Ok {[ "ip" := JStr ip;
           "source" := JStr "AlienVault OTX";
           "endpoint" := JStr "IPv4/general";
           "fetched_at" := JStr (utc_now W (clock_reads s));
           "raw" := JObj payload;
           "indicator" := default JNull (payload !! "indicator");
           "alexa_rank" := nested_field payload "alexa" "rank";
           "pulse_count" := nested_field payload "pulse_info" "count" ]},
     after_clock s).
Proof.
  unfold transform, utc_now_isoformat, nested_field, py_get. unfold_M.
  destruct (payload !! "alexa") as [[]|], (payload !! "pulse_info") as [[]|];
    simpl; done.
Qed.

(** A payload that is not a mapping has no [get]. *)
Lemma transform_not_object (ip : string) (payload : json) (s : state) :
  is_dict payload = false →
  transform W ip payload s = (Raise (AttributeError "get"), after_clock s).
Proof. intros H. destruct payload; try done. Qed.

Lemma dom_record (a b c d e f g h : json) :
  dom ({[ "ip" := a; "source" := b; "endpoint" := c; "fetched_at" := d;
          "raw" := e; "indicator" := f; "alexa_rank" := g;
          "pulse_count" := h ]} : gmap string json) = record_keys.
Proof. rewrite !dom_insert_L, dom_singleton_L. done. Qed.

(** C6 (transformer).  For every address and every payload that is a JSON
    object, the transformer returns a record and does not raise; the
    [indicator] of the record is the [indicator] of the payload, null when
    the payload has none; [alexa_rank] is [alexa.rank] when [alexa] is
    itself a mapping and null otherwise; [pulse_count] is
    [pulse_info.count] when [pulse_info] is itself a mapping and null
    otherwise.  The record keeps the address and the payload, and the only
    effect is one reading of the clock. *)
Theorem transform_lifts_fields (ip : string) (payload : gmap string json)
    (s : state) :
  ∃ record,
    transform W ip (JObj payload) s = (Ok record, after_clock s) ∧
    record !! "indicator" = Some (default JNull (payload !! "indicator")) ∧
    record !! "alexa_rank" = Some (nested_field payload "alexa" "rank") ∧
    record !! "pulse_count"
      = Some (nested_field payload "pulse_info" "count") ∧
    record !! "ip" = Some (JStr ip) ∧
    record !! "raw" = Some (JObj payload) ∧
    record !! "fetched_at" = Some (JStr (utc_now W (clock_reads s))) ∧
    dom record = record_keys.
Proof.
  eexists. split; [apply transform_object|].
  split_and!; [by simplify_map_eq..|apply dom_record].
Qed.

(** The two payloads of the specification. *)
Example transform_example :
  ∃ record,
    transform W "1.2.3.4" example_payload initial = (Ok record, after_clock initial) ∧
    record !! "indicator" = Some (JStr "1.2.3.4") ∧
    record !! "alexa_rank" = Some (JInt 500) ∧
    record !! "pulse_count" = Some (JInt 3).
Proof.
  eexists. split; [apply transform_object|]. by vm_compute.
Qed.

Example transform_alexa_not_a_map :
  ∃ record,
    transform W "1.2.3.4" (JObj {[ "alexa" := JStr "not-a-map" ]}) initial
    = (Ok record, after_clock initial) ∧
    record !! "alexa_rank" = Some JNull.
Proof.
  eexists. split; [apply transform_object|]. by vm_compute.
Qed.

End Transformer.

(* ================================================================= *)
(** ** Persistence layer *)

Section Persistence.

Context (W : world).

Lemma upsert_filter_Some (doc : gmap string json) (upsert_key : option string)
    (key : string) (v : json) :
  upsert_filter doc upsert_key = Some (key, v)
  ↔ key_present_non_null doc upsert_key key v ∧ key ≠ EmptyString.
Proof.
  unfold upsert_filter, key_present_non_null. split.
  - destruct upsert_key as [k|]; [|done].
    destruct k as [|c k]; simpl; [done|].
    destruct (doc !! String c k) as [w|] eqn:Hw; [|done].
    destruct w; simpl; intros [= <- <-]; done.
  - intros [(-> & Hv & Hnull) Hkey].
    destruct key as [|c k]; [done|]. simpl. rewrite Hv.
    destruct v; done.
Qed.

Lemma upsert_filter_None (doc : gmap string json) (upsert_key : option string) :
  upsert_filter doc upsert_key = None
  ↔ ¬ ∃ key v, key_present_non_null doc upsert_key key v ∧ key ≠ EmptyString.
Proof.
  split.
  - intros Hnone (key & v & H). apply upsert_filter_Some in H. congruence.
  - intros Hno. destruct (upsert_filter doc upsert_key) as [[key v]|] eqn:Hf;
      [|done].
    destruct Hno. exists key, v. by apply upsert_filter_Some.
Qed.

Lemma upsert_document_update (coll : collection) (doc : gmap string json)
    (upsert_key : option string) (key : string) (v : json) (s : state) :
  upsert_filter doc upsert_key = Some (key, v) →
  upsert_document W (Some coll) doc upsert_key s
  = (written W "upserted" s, after_write (EvUpdateOne {[ key := v ]} doc true) s).
Proof.
  intros Hf. unfold upsert_document, coll_call, store_write, written.
  rewrite Hf. unfold_M. by destruct (mongo_write W (writes s)).
Qed.

Lemma upsert_document_insert (coll : collection) (doc : gmap string json)
    (upsert_key : option string) (s : state) :
  upsert_filter doc upsert_key = None →
  upsert_document W (Some coll) doc upsert_key s
  = (written W "inserted" s, after_write (EvInsertOne doc) s).
Proof.
  intros Hf. unfold upsert_document, coll_call, store_write, written.
  rewrite Hf. unfold_M. by destruct (mongo_write W (writes s)).
Qed.

(** C2 (persistence layer), as the code has it.  For every document and
    every optional key name, the write is a conditional update with upsert
    matching [{key: value}], reported as "upserted", exactly when the key
    name is provided and not empty, is a field of the document, and the
    value of the field is not null; in every other case the write is an
    unconditional insert of the document, reported as "inserted".  The
    outcome is reported when the store accepts the write; when it refuses,
    its failure is raised. *)
Theorem upsert_document_upserts_iff_key_usable (coll : collection)
    (doc : gmap string json) (upsert_key : option string) (s : state) :
  (∃ key v,
     (key_present_non_null doc upsert_key key v ∧ key ≠ EmptyString) ∧
     upsert_document W (Some coll) doc upsert_key s
     = (written W "upserted" s,
        after_write (EvUpdateOne {[ key := v ]} doc true) s))
  ∨ ((¬ ∃ key v, key_present_non_null doc upsert_key key v
                 ∧ key ≠ EmptyString) ∧
     upsert_document W (Some coll) doc upsert_key s
     = (written W "inserted" s, after_write (EvInsertOne doc) s)).
Proof.
  destruct (upsert_filter doc upsert_key) as [[key v]|] eqn:Hf.
  - left. exists key, v. split; [by apply upsert_filter_Some|].
    by apply upsert_document_update.
  - right. split; [by apply upsert_filter_None|].
    by apply upsert_document_insert.
Qed.

(** On a record (a document with exactly the eight keys) the empty key name
    is no field, and the condition is the plain one: provided, present, not
    null. *)
Lemma upsert_document_record (coll : collection) (doc : gmap string json)
    (upsert_key : option string) (s : state) :
  dom doc = record_keys →
  (∃ key v,
     key_present_non_null doc upsert_key key v ∧
     upsert_document W (Some coll) doc upsert_key s
     = (written W "upserted" s,
        after_write (EvUpdateOne {[ key := v ]} doc true) s))
  ∨ ((¬ ∃ key v, key_present_non_null doc upsert_key key v) ∧
     upsert_document W (Some coll) doc upsert_key s
     = (written W "inserted" s, after_write (EvInsertOne doc) s)).
Proof.
  intros Hdom.
  assert (Hempty : doc !! EmptyString = None).
  { apply not_elem_of_dom. rewrite Hdom. by vm_compute. }
  destruct (upsert_filter doc upsert_key) as [[key v]|] eqn:Hf.
  - left. exists key, v. split; [by apply upsert_filter_Some in Hf as [? _]|].
    by apply upsert_document_update.
  - right. split; [|by apply upsert_document_insert].
    intros (key & v & Hkey). apply upsert_filter_None in Hf. apply Hf.
    exists key, v. split; [done|]. intros ->.
    destruct Hkey as (_ & Hv & _). congruence.
Qed.

End Persistence.

(** C2, as stated, fails: the empty key name is provided, is a field of the
    document, its value is not null, and the write is an insert. *)
Lemma upsert_document_empty_key_inserts :
  key_present_non_null {[ EmptyString := JInt 1 ]} (Some EmptyString)
                       EmptyString (JInt 1) ∧
  upsert_document (example_world always_ok None) (Some example_collection)
                  {[ EmptyString := JInt 1 ]} (Some EmptyString) initial
  = (Ok "inserted",
     after_write (EvInsertOne {[ EmptyString := JInt 1 ]}) initial) ∧
  (upsert_document (example_world always_ok None) (Some example_collection)
                   {[ EmptyString := JInt 1 ]} (Some EmptyString) initial).1
  ≠ Ok "upserted".
Proof.
  split; [|split; [reflexivity|]].
  - split; [done|]. split; [reflexivity|done].
  - vm_compute. discriminate.
Qed.

(** The null indicator of the specification falls back to an insert. *)
Example upsert_document_null_indicator (W : world) (coll : collection)
    (s : state) :
  let doc : gmap string json := {[ "indicator" := JNull; "ip" := JStr "1.2.3.4" ]} in
  upsert_document W (Some coll) doc (Some "indicator") s
  = (written W "inserted" s, after_write (EvInsertOne doc) s).
Proof. intros doc. by apply upsert_document_insert. Qed.

(* ================================================================= *)
(** ** Orchestrator *)

Lemma outcomes_app (evs1 evs2 : list event) :
  outcomes (evs1 ++ evs2) = outcomes evs1 ++ outcomes evs2.
Proof. apply omap_app. Qed.

Lemma outcomes_cons (e : event) (evs : list event) :
  outcomes (e :: evs) = match outcome_of e with
                        | Some o => o :: outcomes evs
                        | None => outcomes evs
                        end.
Proof. reflexivity. Qed.

Lemma outcomes_fetch_events (evs : list event) :
  Forall (λ e, is_fetch_event e = true) evs → outcomes evs = [].
Proof.
  induction 1 as [|e evs He _ IH]; [done|].
  rewrite outcomes_cons, IH. by destruct e.
Qed.

Lemma printed_app (evs1 evs2 : list event) :
  printed (evs1 ++ evs2) = printed evs1 ++ printed evs2.
Proof. apply omap_app. Qed.

Lemma printed_fetch_events (evs : list event) :
  Forall (λ e, is_fetch_event e = true) evs → printed evs = [].
Proof.
  induction 1 as [|e evs He _ IH]; [done|].
  destruct e; try done; exact IH.
Qed.

Lemma fetch_events_dry_run (evs : list event) :
  Forall (λ e, is_fetch_event e = true) evs → Forall dry_run_event evs.
Proof. intros H. eapply Forall_impl; [exact H|]. intros e He. by left. Qed.

Lemma dry_run_event_not_store (e : event) :
  dry_run_event e → is_store_event e = false.
Proof.
  intros [He|[(doc & -> & _)|(ip & err & ->)]]; [by destruct e|done..].
Qed.

Lemma dry_run_printed_records (evs : list event) :
  Forall dry_run_event evs → Forall is_record (printed evs).
Proof.
  induction 1 as [|e evs He _ IH]; [constructor|].
  unfold printed in *. simpl.
  destruct He as [He|[(doc & -> & Hdoc)|(ip & err & ->)]]; simpl.
  - by destruct e.
  - by constructor.
  - done.
Qed.

Lemma succeeded_count {A} (l : list (result A)) :
  (Z.of_nat (length (filter (λ r, succeeded r = true) l))
   =? Z.of_nat (length l)) = forallb succeeded l.
Proof.
  assert (∀ l' : list (result A),
            (length (filter (λ r, succeeded r = true) l') ≤ length l')%nat)
    as Hle by (intros l'; apply length_filter).
  induction l as [|r l IH]; [done|].
  destruct r as [a|e]; cbn [forallb succeeded andb].
  - rewrite filter_cons_True by done. simpl length. rewrite <- IH.
    destruct (Z.eqb_spec (Z.of_nat (length (filter (λ r, succeeded r = true) l)))
                         (Z.of_nat (length l)));
      [apply Z.eqb_eq|apply Z.eqb_neq]; lia.
  - rewrite filter_cons_False by done. apply Z.eqb_neq.
    specialize (Hle l). simpl length. lia.
Qed.

Lemma outcome_for_ips (ips : list string) :
  ∀ results : list (result unit),
    length results = length ips →
    outcome_ip <$> zip_with outcome_for ips results = ips.
Proof.
  induction ips as [|ip rest IH]; intros [|r l] Hlen; simpl in *; try done.
  f_equal; [by destruct r|]. apply IH. lia.
Qed.

Section Orchestrator.

Context (W : world).
Context (dry_run : bool) (upsert_key : option string).
Context (coll : option collection) (headers : gmap string string).
Context (timeout max_retries backoff : Z).

#[local] Abbreviation process ip :=
  (process_ip W dry_run upsert_key coll headers timeout max_retries backoff ip).
#[local] Abbreviation loop ips successes :=
  (run_loop W dry_run upsert_key coll headers timeout max_retries backoff
            ips successes).
#[local] Abbreviation results ips s :=
  (address_results W dry_run upsert_key coll headers timeout max_retries
                   backoff ips s).
#[local] Abbreviation finish ips s :=
  (after_addresses W dry_run upsert_key coll headers timeout max_retries
                   backoff ips s).

Lemma process_ip_unfold (ip : string) (s : state) :
  process ip s
  = match fetch_otx_general W ip headers timeout max_retries backoff s with
    | (Raise e, s1) => (Raise e, s1)
    | (Ok payload, s1) =>
        match transform W ip payload s1 with
        | (Raise e, s2) => (Raise e, s2)
        | (Ok doc, s2) =>
            if dry_run then (Ok tt, record_events [EvPrintJson (JObj doc)] s2)
            else match upsert_document W coll doc upsert_key s2 with
                 | (Raise e, s3) => (Raise e, s3)
                 | (Ok status, s3) =>
                     (Ok tt, record_events [EvInfo ip status] s3)
                 end
        end
    end.
Proof.
  unfold process_ip. unfold_M.
  destruct (fetch_otx_general _ _ _ _ _ _ s) as [[payload|e] s1]; [|done].
  destruct (transform W ip payload s1) as [[doc|e] s2]; [|done].
  by destruct dry_run.
Qed.

(** One address: its events show one success when the body of the [try]
    gets to its end and nothing otherwise; a dry run asks nothing of the
    store. *)
Lemma process_ip_outcome (ip : string) (s : state) :
  ∃ evs,
    trace (process ip s).2 = trace s ++ evs ∧
    outcomes evs = match (process ip s).1 with
                   | Ok _ => [Succeeded ip]
                   | Raise _ => []
                   end ∧
    (dry_run = true →
     writes (process ip s).2 = writes s ∧ Forall dry_run_event evs).
Proof.
  rewrite process_ip_unfold. unfold fetch_otx_general.
  destruct (fetch_loop_frame W ip headers timeout max_retries backoff
              (range1 (max_retries + 1)) s) as (n & evs & Hs & Hev).
  pose proof (outcomes_fetch_events _ Hev) as Hout.
  pose proof (fetch_events_dry_run _ Hev) as Hdry.
  destruct (fetch_loop _ _ _ _ _ _ _ _ s) as [[payload|e] s1];
    simpl in Hs; subst s1.
  2:{ exists evs. simpl. by split_and!. }
  destruct (is_dict payload) eqn:Hdict.
  2:{ rewrite transform_not_object by done. exists evs. simpl. by split_and!. }
  destruct payload as [| | | | | |payload]; try done.
  rewrite transform_object.
  match goal with
  | |- context [EvPrintJson (JObj ?r)] => set (record := r)
  end.
  destruct dry_run.
  - exists (evs ++ [EvPrintJson (JObj record)]). simpl.
    split; [by rewrite app_assoc|]. split.
    + by rewrite outcomes_app, Hout.
    + intros _. split; [done|]. apply Forall_app. split; [done|].
      constructor; [|constructor]. right. left. eexists. split; [done|].
      eexists. split; [done|]. apply dom_record.
  - unfold upsert_document, coll_call, store_write. unfold_M.
    destruct coll as [c|].
    + destruct (upsert_filter record upsert_key) as [[key v]|];
        destruct (mongo_write W _); simpl;
        eexists (evs ++ _); (split; [rewrite <- ?app_assoc; reflexivity|]);
        rewrite outcomes_app, Hout; done.
    + destruct (upsert_filter record upsert_key) as [[key v]|]; simpl;
        exists evs; done.
Qed.

Lemma run_loop_cons (ip : string) (rest : list string) (successes : Z)
    (s : state) :
  loop (ip :: rest) successes s
  = match process ip s with
    | (Ok _, s1) => loop rest (successes + 1) s1
    | (Raise e, s1) =>
        loop rest successes (record_events [EvErrorFailed ip e] s1)
    end.
Proof.
  simpl. unfold_M. by destruct (process ip s) as [[[]|e] s1].
Qed.

Lemma failures_cons_succeeded ip l :
  filter (λ o, is_failed o = true) (Succeeded ip :: l)
  = filter (λ o, is_failed o = true) l.
Proof. by rewrite filter_cons_False. Qed.

(** The loop: every address gets one outcome, in order; the counter grows
    by the number of addresses that did not fail. *)
Lemma run_loop_outcomes (ips : list string) :
  ∀ (successes : Z) (s : state),
    ∃ evs s',
      loop ips successes s
      = (Ok (successes + Z.of_nat (length ips)
             - Z.of_nat (length (failures evs))), s') ∧
      trace s' = trace s ++ evs ∧
      outcome_ip <$> outcomes evs = ips ∧
      (dry_run = true → writes s' = writes s ∧ Forall dry_run_event evs).
Proof.
  induction ips as [|ip rest IH]; intros successes s.
  - exists [], s. simpl. unfold mret, M_ret.
    split; [do 2 f_equal; lia|]. by rewrite app_nil_r.
  - rewrite run_loop_cons.
    destruct (process_ip_outcome ip s) as (evs1 & Htr1 & Hout1 & Hdry1).
    destruct (process ip s) as [[[]|e] s1]; simpl in *.
    + destruct (IH (successes + 1) s1) as (evs & s' & Hrun & Htr & Hips & Hdry).
      exists (evs1 ++ evs), s'. split; [|split; [|split]].
      * rewrite Hrun. do 2 f_equal. unfold failures.
        rewrite outcomes_app, Hout1. simpl.
        rewrite failures_cons_succeeded. lia.
      * by rewrite Htr, Htr1, app_assoc.
      * by rewrite outcomes_app, Hout1, fmap_app, Hips.
      * intros Hd. destruct (Hdry Hd) as [Hw Hf].
        destruct (Hdry1 Hd) as [Hw1 Hf1].
        split; [congruence|]. by apply Forall_app.
    + destruct (IH successes (record_events [EvErrorFailed ip e] s1))
        as (evs & s' & Hrun & Htr & Hips & Hdry).
      exists (evs1 ++ EvErrorFailed ip e :: evs), s'.
      split; [|split; [|split]].
      * rewrite Hrun. do 2 f_equal. unfold failures.
        rewrite outcomes_app, Hout1, app_nil_l, outcomes_cons.
        cbn [outcome_of]. rewrite filter_cons_True by done.
        rewrite length_cons. fold (failures evs). lia.
      * rewrite Htr. simpl. rewrite Htr1. by rewrite <- !app_assoc.
      * rewrite outcomes_app, Hout1, app_nil_l, outcomes_cons.
        cbn [outcome_of]. by rewrite fmap_cons, Hips.
      * intros Hd. destruct (Hdry Hd) as [Hw Hf].
        destruct (Hdry1 Hd) as [Hw1 Hf1].
        split; [simpl in Hw; congruence|].
        apply Forall_app. split; [done|]. constructor; [|done].
        right. right. by exists ip, e.
Qed.

Lemma failures_le_outcomes (evs : list event) :
  (length (failures evs) ≤ length (outcomes evs))%nat.
Proof. apply length_filter. Qed.

Lemma run_batch_status (ips : list string) (s : state) :
  ∃ evs s',
    run_batch W ips dry_run upsert_key coll headers timeout max_retries
              backoff s
    = (Ok (if decide (failures evs = []) then 0 else 1), s') ∧
    trace s' = trace s ++ evs ∧
    outcome_ip <$> outcomes evs = ips ∧
    (dry_run = true → writes s' = writes s ∧ Forall dry_run_event evs).
Proof.
  unfold run_batch. unfold_M.
  destruct (run_loop_outcomes ips 0 s) as (evs & s' & Hrun & Htr & Hips & Hdry).
  rewrite Hrun. exists evs, s'. split; [|done].
  pose proof (failures_le_outcomes evs) as Hle.
  assert (length (outcomes evs) = length ips) as Hlen
      by (by rewrite <- Hips, length_fmap).
  destruct (decide (failures evs = [])) as [Hnil|Hsome].
  - rewrite Hnil. simpl length.
    by rewrite (proj2 (Z.eqb_eq _ _)) by lia.
  - rewrite (proj2 (Z.eqb_neq _ _)); [done|].
    destruct (failures evs); [done|]. simpl length. lia.
Qed.

(** The loop by the results of its addresses: the counter grows by the
    number of bodies that got to their end, and the output shows for every
    address, in order, what its body ended with. *)
Lemma run_loop_results (ips : list string) :
  ∀ (successes : Z) (s : state),
    ∃ evs,
      loop ips successes s
      = (Ok (successes
             + Z.of_nat (length (filter (λ r, succeeded r = true)
                                        (results ips s)))),
         finish ips s) ∧
      trace (finish ips s) = trace s ++ evs ∧
      outcomes evs = zip_with outcome_for ips (results ips s) ∧
      (dry_run = true →
       writes (finish ips s) = writes s ∧ Forall dry_run_event evs).
Proof.
  induction ips as [|ip rest IH]; intros successes s.
  - exists []. simpl. unfold mret, M_ret.
    split; [do 2 f_equal; lia|]. by rewrite app_nil_r.
  - rewrite run_loop_cons. cbn [address_results after_addresses].
    unfold after_address.
    destruct (process_ip_outcome ip s) as (evs1 & Htr1 & Hout1 & Hdry1).
    destruct (process ip s) as [[[]|e] s1]; simpl in Htr1, Hout1, Hdry1;
      cbn [fst snd].
    + destruct (IH (successes + 1) s1) as (evs & Hrun & Htr & Hout & Hdry).
      exists (evs1 ++ evs). split_and!.
      * rewrite Hrun. rewrite filter_cons_True by done. simpl length.
        do 2 f_equal. lia.
      * by rewrite Htr, Htr1, app_assoc.
      * by rewrite outcomes_app, Hout1, Hout.
      * intros Hd. destruct (Hdry Hd) as [Hw Hf].
        destruct (Hdry1 Hd) as [Hw1 Hf1].
        split; [congruence|]. by apply Forall_app.
    + destruct (IH successes (record_events [EvErrorFailed ip e] s1))
        as (evs & Hrun & Htr & Hout & Hdry).
      exists (evs1 ++ EvErrorFailed ip e :: evs). split_and!.
      * rewrite Hrun. by rewrite filter_cons_False by done.
      * rewrite Htr. simpl. rewrite Htr1. by rewrite <- !app_assoc.
      * rewrite outcomes_app, Hout1, app_nil_l, outcomes_cons.
        cbn [outcome_of]. by rewrite Hout.
      * intros Hd. destruct (Hdry Hd) as [Hw Hf].
        destruct (Hdry1 Hd) as [Hw1 Hf1].
        split; [simpl in Hw; congruence|].
        apply Forall_app. split; [done|]. constructor; [|done].
        right. right. by exists ip, e.
Qed.

Lemma address_results_length (ips : list string) :
  ∀ s, length (results ips s) = length ips.
Proof. induction ips as [|ip rest IH]; intros s; simpl; by rewrite ?IH. Qed.

(** The batch by the results of its addresses: 0 when every body got to
    its end, 1 otherwise. *)
Lemma run_batch_results (ips : list string) (s : state) :
  ∃ evs,
    run_batch W ips dry_run upsert_key coll headers timeout max_retries
              backoff s
    = (Ok (if forallb succeeded (results ips s) then 0 else 1),
       finish ips s) ∧
    trace (finish ips s) = trace s ++ evs ∧
    outcomes evs = zip_with outcome_for ips (results ips s) ∧
    (dry_run = true →
     writes (finish ips s) = writes s ∧ Forall dry_run_event evs).
Proof.
  destruct (run_loop_results ips 0 s) as (evs & Hrun & Hrest).
  exists evs. split; [|done].
  unfold run_batch. unfold_M. rewrite Hrun. rewrite Z.add_0_l.
  by rewrite <- (address_results_length ips s), succeeded_count.
Qed.

End Orchestrator.

Section RunLemmas.

Context (W : world).

#[local] Abbreviation batch ips dry_run key coll t m b :=
  (run_batch W ips dry_run key coll (request_headers (load_env W)) t m b).

Lemma numeric_config_Some (t m b : Z) :
  numeric_config W = Some (t, m, b) →
  parse_int W (REQUEST_TIMEOUT (load_env W)) = Some t ∧
  parse_int W (MAX_RETRIES (load_env W)) = Some m ∧
  parse_int W (RETRY_BACKOFF_SECONDS (load_env W)) = Some b.
Proof.
  unfold numeric_config.
  destruct (parse_int W (REQUEST_TIMEOUT _)) as [t'|]; [|done].
  destruct (parse_int W (MAX_RETRIES _)) as [m'|]; [|done].
  destruct (parse_int W (RETRY_BACKOFF_SECONDS _)) as [b'|]; [|done].
  simpl. by intros [= -> -> ->].
Qed.

(** A setting that is not a number ends [run] before anything happens. *)
Lemma run_config_error (ips : list string) (dry_run : bool)
    (key : option string) (s : state) :
  numeric_config W = None →
  ∃ msg, run W ips dry_run key s = (Raise (ValueError msg), s).
Proof.
  unfold numeric_config, run, int. unfold_M.
  destruct (parse_int W (REQUEST_TIMEOUT _)) as [t'|]; [|by eexists].
  destruct (parse_int W (MAX_RETRIES _)) as [m'|]; [|by eexists].
  destruct (parse_int W (RETRY_BACKOFF_SECONDS _)) as [b'|]; [|by eexists].
  done.
Qed.

Lemma run_dry (ips : list string) (key : option string) (t m b : Z)
    (s : state) :
  numeric_config W = Some (t, m, b) →
  run W ips true key s = batch ips true key None t m b s.
Proof.
  intros (Ht & Hm & Hb)%numeric_config_Some. unfold run, int. unfold_M.
  by rewrite Ht, Hm, Hb.
Qed.

Lemma run_store_down (ips : list string) (key : option string) (t m b : Z)
    (e : exn) (s : state) :
  numeric_config W = Some (t, m, b) →
  mongo_ping W = Some e →
  run W ips false key s = (Ok 2, record_events (connect_failed_events W e) s).
Proof.
  intros (Ht & Hm & Hb)%numeric_config_Some Hping.
  unfold run, int, get_mongo_collection. unfold_M.
  rewrite Ht, Hm, Hb, Hping. simpl. f_equal. state_eq.
Qed.

Lemma run_connected (ips : list string) (key : option string) (t m b : Z)
    (s : state) :
  numeric_config W = Some (t, m, b) →
  mongo_ping W = None →
  run W ips false key s
  = batch ips false key
          (Some {| coll_db := MONGO_DB (load_env W);
                   coll_name := MONGO_COLLECTION (load_env W) |})
          t m b (record_events (connect_events W) s).
Proof.
  intros (Ht & Hm & Hb)%numeric_config_Some Hping.
  unfold run, int, get_mongo_collection, create_index, connect_events.
  unfold_M. rewrite Ht, Hm, Hb, Hping. simpl.
  destruct (mongo_create_index W); simpl; f_equal; state_eq.
Qed.

Lemma outcomes_connect_events : outcomes (connect_events W) = [].
Proof. unfold connect_events. by destruct (mongo_create_index W). Qed.

Lemma failures_app_quiet (evs1 evs2 : list event) :
  outcomes evs1 = [] → failures (evs1 ++ evs2) = failures evs2.
Proof. intros H. unfold failures. by rewrite outcomes_app, H. Qed.

(** Once the start went through, [run] ends with a status: every address
    has one outcome, in order, and the status is 0 exactly when no address
    failed. *)
Lemma run_started (ips : list string) (dry_run : bool) (key : option string)
    (t m b : Z) (s : state) :
  numeric_config W = Some (t, m, b) →
  startup_failure W dry_run = None →
  ∃ evs s',
    run W ips dry_run key s
    = (Ok (if decide (failures evs = []) then 0 else 1), s') ∧
    trace s' = trace s ++ evs ∧
    outcome_ip <$> outcomes evs = ips ∧
    (dry_run = true → writes s' = writes s ∧ Forall dry_run_event evs).
Proof.
  intros Hcfg Hstart. destruct dry_run; simpl in Hstart.
  - rewrite (run_dry _ _ _ _ _ _ Hcfg). apply run_batch_status.
  - rewrite (run_connected _ _ _ _ _ _ Hcfg Hstart).
    destruct (run_batch_status W false key
                (Some {| coll_db := MONGO_DB (load_env W);
                         coll_name := MONGO_COLLECTION (load_env W) |})
                (request_headers (load_env W)) t m b ips
                (record_events (connect_events W) s))
      as (evs & s' & Hrun & Htr & Hips & _).
    exists (connect_events W ++ evs), s'.
    rewrite failures_app_quiet by apply outcomes_connect_events.
    split; [done|]. split; [by rewrite Htr; simpl; rewrite <- app_assoc|].
    split; [|done]. by rewrite outcomes_app, outcomes_connect_events.
Qed.

Lemma started_trace (dry_run : bool) (s : state) :
  trace (started W dry_run s)
  = trace s ++ (if dry_run then [] else connect_events W).
Proof. destruct dry_run; simpl; by rewrite ?app_nil_r. Qed.

(** Once the start went through, [run] is the batch on the addresses, from
    the state the start left. *)
Lemma run_started_batch (ips : list string) (dry_run : bool)
    (key : option string) (t m b : Z) (s : state) :
  numeric_config W = Some (t, m, b) →
  startup_failure W dry_run = None →
  run W ips dry_run key s
  = run_batch W ips dry_run key (store_handle W dry_run)
              (request_headers (load_env W)) t m b (started W dry_run s).
Proof.
  intros Hcfg Hstart. destruct dry_run; simpl in Hstart.
  - by apply run_dry.
  - by apply run_connected.
Qed.

(** Once the start went through, the status of [run] is 0 when the body of
    every address got to its end and 1 otherwise, and the output shows what
    each body ended with. *)
Lemma run_started_results (ips : list string) (dry_run : bool)
    (key : option string) (t m b : Z) (s : state) :
  numeric_config W = Some (t, m, b) →
  startup_failure W dry_run = None →
  let results :=
    address_results W dry_run key (store_handle W dry_run)
                    (request_headers (load_env W)) t m b ips
                    (started W dry_run s) in
  let s' :=
    after_addresses W dry_run key (store_handle W dry_run)
                    (request_headers (load_env W)) t m b ips
                    (started W dry_run s) in
  ∃ evs,
    run W ips dry_run key s
    = (Ok (if forallb succeeded results then 0 else 1), s') ∧
    trace s' = trace s ++ evs ∧
    outcomes evs = zip_with outcome_for ips results ∧
    (dry_run = true → writes s' = writes s ∧ Forall dry_run_event evs).
Proof.
  intros Hcfg Hstart results s'.
  rewrite (run_started_batch ips dry_run key t m b s Hcfg Hstart).
  destruct (run_batch_results W dry_run key (store_handle W dry_run)
              (request_headers (load_env W)) t m b ips (started W dry_run s))
    as (evs & Hrun & Htr & Hout & Hdry).
  fold results s' in Hrun, Htr, Hout, Hdry.
  exists ((if dry_run then [] else connect_events W) ++ evs).
  split; [done|]. split; [by rewrite Htr, started_trace, app_assoc|].
  split.
  - rewrite outcomes_app, <- Hout.
    destruct dry_run; [done|]. by rewrite outcomes_connect_events.
  - intros ->. by apply Hdry.
Qed.

Lemma main_no_ips (a : args) (s s1 : state) :
  iter_ips_from_args W (arg_ips a) (arg_ips_file a) s = (Ok [], s1) →
  main W a s = (Ok 1, record_events [EvNoIps] s1).
Proof. intros H. unfold main. unfold_M. by rewrite H. Qed.

Lemma main_some_ips (a : args) (ips : list string) (s s1 : state) :
  ips ≠ [] →
  iter_ips_from_args W (arg_ips a) (arg_ips_file a) s = (Ok ips, s1) →
  main W a s = run W ips (arg_dry_run a) (Some (arg_upsert_key a)) s1.
Proof.
  intros Hne H. unfold main. unfold mbind, M_bind. rewrite H.
  by destruct ips.
Qed.

End RunLemmas.

(** C5 (orchestrator), as the code has it.  A numeric setting that does not
    parse makes [run] raise before the store is tried, whatever the state of
    the store.  With numeric settings that parse: when the store cannot be
    reached at startup, [run] returns 2 and processes no address; otherwise
    every address is processed in the order of the list, each from the state
    the addresses before it left, and [run] returns 0 when the body of the
    [try] got to its end for every address and 1 when it raised for at least
    one; the output shows for every address what its body ended with.  A
    dry run never asks the store (its events hold no connection and no
    write), so it never returns 2.  The entry point exits with 1 when no
    address is given; otherwise its exit status is what [run] returns, and 1
    when [run] raises. *)
Theorem run_exit_status (W : world) (ips : list string) (dry_run : bool)
    (key : option string) (s : state) :
  match numeric_config W with
  | None => ∃ msg, run W ips dry_run key s = (Raise (ValueError msg), s)
  | Some (t, m, b) =>
      match startup_failure W dry_run with
      | Some e =>
          run W ips dry_run key s
          = (Ok 2, record_events (connect_failed_events W e) s)
      | None =>
          let results :=
            address_results W dry_run key (store_handle W dry_run)
                            (request_headers (load_env W)) t m b ips
                            (started W dry_run s) in
          let s' :=
            after_addresses W dry_run key (store_handle W dry_run)
                            (request_headers (load_env W)) t m b ips
                            (started W dry_run s) in
          ∃ evs,
            run W ips dry_run key s
            = (Ok (if forallb succeeded results then 0 else 1), s') ∧
            trace s' = trace s ++ evs ∧
            outcomes evs = zip_with outcome_for ips results ∧
            length results = length ips ∧
            (dry_run = true → Forall (λ e, is_store_event e = false) evs)
      end
  end
  ∧ (∀ a s1,
       iter_ips_from_args W (arg_ips a) (arg_ips_file a) s = (Ok [], s1) →
       exit_status W a s = 1)
  ∧ (∀ a s1 given,
       given ≠ [] →
       iter_ips_from_args W (arg_ips a) (arg_ips_file a) s = (Ok given, s1) →
       main W a s = run W given (arg_dry_run a) (Some (arg_upsert_key a)) s1 ∧
       exit_status W a s
       = match (run W given (arg_dry_run a) (Some (arg_upsert_key a)) s1).1
         with
         | Ok status => status
         | Raise _ => 1
         end).
Proof.
  split; [|split].
  - destruct (numeric_config W) as [[[t m] b]|] eqn:Hcfg.
    2:{ by apply run_config_error. }
    destruct (startup_failure W dry_run) as [e|] eqn:Hstart.
    + destruct dry_run; [done|]. by apply (run_store_down W _ _ t m b).
    + destruct (run_started_results W ips dry_run key t m b s Hcfg Hstart)
        as (evs & Hrun & Htr & Hout & Hdry).
      exists evs. split_and!; [done..|apply address_results_length|].
      intros Hd. destruct (Hdry Hd) as [_ Hev].
      eapply Forall_impl; [exact Hev|]. apply dry_run_event_not_store.
  - intros a s1 Hnone. unfold exit_status.
    by rewrite (main_no_ips W a s s1 Hnone).
  - intros a s1 given Hne Hgiven.
    pose proof (main_some_ips W a given s s1 Hne Hgiven) as Hmain.
    split; [done|]. unfold exit_status. rewrite Hmain.
    by destruct (run W given _ _ s1) as [[status|e] s'].
Qed.

(** C5, as stated, fails: with a [REQUEST_TIMEOUT] that is no number, a real
    run whose store cannot be reached does not get to the store; [run]
    raises [ValueError] and the process ends with status 1, not 2. *)
Lemma run_bad_setting_store_down :
  mongo_ping misconfigured_world
  = Some (PyMongoError "server selection timed out") ∧
  run misconfigured_world ["8.8.8.8"] false (Some "indicator") initial
  = (Raise (ValueError "soon"), initial) ∧
  exit_status misconfigured_world
              {| arg_ips := Some "8.8.8.8"; arg_ips_file := None;
                 arg_dry_run := false; arg_upsert_key := "indicator" |}
              initial = 1.
Proof. split_and!; reflexivity. Qed.

(** The end-to-end case of the specification, address by address: the body
    of the first address gets to its end, that of the second raises the
    failure of its last attempt. *)
Example address_results_partial_failure :
  address_results (example_world first_request_only None) false
                  (Some "indicator")
                  (store_handle (example_world first_request_only None) false)
                  (request_headers
                     (load_env (example_world first_request_only None)))
                  20 3 2 ["1.2.3.4"; "8.8.8.8"]
                  (started (example_world first_request_only None) false
                           initial)
  = [Ok tt; Raise (RequestException "connection refused")].
Proof. by vm_compute. Qed.


Section DryRun.

Context (W : world) (key : option string).
Context (headers : gmap string string) (timeout max_retries backoff : Z).

#[local] Abbreviation process ip :=
  (process_ip W true key None headers timeout max_retries backoff ip).
#[local] Abbreviation finish ips s :=
  (after_addresses W true key None headers timeout max_retries backoff ips s).
#[local] Abbreviation records ips s :=
  (fetched_records W true key None headers timeout max_retries backoff ips s).

(** One address of a dry run: what is printed is the record of the address
    when it was fetched, and nothing otherwise. *)
Lemma process_ip_prints (ip : string) (s : state) :
  ∃ evs,
    trace (after_address W true key None headers timeout max_retries backoff
                         ip s) = trace s ++ evs ∧
    printed evs
    = match fetched_record W headers timeout max_retries backoff ip s with
      | Some record => [record]
      | None => []
      end.
Proof.
  unfold after_address, fetched_record. rewrite process_ip_unfold.
  unfold fetch_otx_general.
  destruct (fetch_loop_frame W ip headers timeout max_retries backoff
              (range1 (max_retries + 1)) s) as (n & evs & Hs & Hev).
  pose proof (printed_fetch_events _ Hev) as Hp.
  destruct (fetch_loop _ _ _ _ _ _ _ _ s) as [[payload|e] s1];
    simpl in Hs; subst s1.
  2:{ exists (evs ++ [EvErrorFailed ip e]). simpl.
      split; [by rewrite app_assoc|]. by rewrite printed_app, Hp. }
  destruct (is_dict payload) eqn:Hdict.
  2:{ rewrite transform_not_object by done.
      exists (evs ++ [EvErrorFailed ip (AttributeError "get")]). simpl.
      split; [by rewrite app_assoc|]. by rewrite printed_app, Hp. }
  destruct payload as [| | | | | |payload]; try done.
  rewrite transform_object.
  eexists (evs ++ [EvPrintJson (JObj _)]). simpl.
  split; [by rewrite app_assoc|]. by rewrite printed_app, Hp.
Qed.

(** The addresses of a dry run: the records printed are those of the
    addresses that were fetched, in the order of the list. *)
Lemma after_addresses_prints (ips : list string) :
  ∀ s, ∃ evs,
    trace (finish ips s) = trace s ++ evs ∧
    printed evs = records ips s.
Proof.
  induction ips as [|ip rest IH]; intros s.
  - exists []. simpl. by rewrite app_nil_r.
  - cbn [after_addresses fetched_records].
    destruct (process_ip_prints ip s) as (evs1 & Htr1 & Hp1).
    destruct (IH (after_address W true key None headers timeout max_retries
                                backoff ip s)) as (evs & Htr & Hp).
    exists (evs1 ++ evs). split; [by rewrite Htr, Htr1, app_assoc|].
    rewrite printed_app, Hp1, Hp.
    by destruct (fetched_record _ _ _ _ _ _ s).
Qed.

End DryRun.

(** C9 (orchestrator, dry run).  In dry-run mode, for every list of
    addresses: a numeric setting that does not parse makes [run] raise
    before anything happens; otherwise [run] ends with a status, sends
    nothing to the store (no connection, no index, no write, and the count
    of writes stays), and what it prints is, in the order of the list, the
    record of every address whose fetch returned a payload of which the
    transformer made a record, and nothing else; every document printed is
    a JSON object with exactly the keys [ip], [source], [endpoint],
    [fetched_at], [raw], [indicator], [alexa_rank] and [pulse_count].
    Whenever the fetch of an address yields a JSON object, the transformer
    makes a record of it and that record is printed. *)
Theorem dry_run_prints_records_only (W : world) (ips : list string)
    (key : option string) (s : state) :
  match numeric_config W with
  | None => ∃ msg, run W ips true key s = (Raise (ValueError msg), s)
  | Some (t, m, b) =>
      (∃ status evs s',
         run W ips true key s = (Ok status, s') ∧
         trace s' = trace s ++ evs ∧
         writes s' = writes s ∧
         Forall (λ e, is_store_event e = false) evs ∧
         printed evs
         = fetched_records W true key None (request_headers (load_env W))
                           t m b ips s ∧
         Forall is_record (printed evs) ∧
         outcome_ip <$> outcomes evs = ips)
      ∧ (∀ ip payload s0 s1,
           fetch_otx_general W ip (request_headers (load_env W)) t m b s0
           = (Ok (JObj payload), s1) →
           ∃ record,
             transform W ip (JObj payload) s1 = (Ok record, after_clock s1) ∧
             dom record = record_keys ∧
             fetched_record W (request_headers (load_env W)) t m b ip s0
             = Some (JObj record) ∧
             process_ip W true key None (request_headers (load_env W)) t m b
                        ip s0
             = (Ok tt,
                record_events [EvPrintJson (JObj record)] (after_clock s1)))
  end.
Proof.
  destruct (numeric_config W) as [[[t m] b]|] eqn:Hcfg.
  2:{ by apply run_config_error. }
  split.
  - destruct (run_started_results W ips true key t m b s Hcfg eq_refl)
      as (evs & Hrun & Htr & Hout & Hdry).
    destruct (Hdry eq_refl) as [Hw Hev].
    destruct (after_addresses_prints W key (request_headers (load_env W))
                t m b ips s) as (evs' & Htr' & Hp).
    cbn [store_handle started] in Hrun, Htr, Hw, Hout.
    assert (evs' = evs) as ->
        by (apply (app_inv_head (trace s)); congruence).
    eexists _, evs, _. split_and!; try done.
    + eapply Forall_impl; [exact Hev|]. apply dry_run_event_not_store.
    + by apply dry_run_printed_records.
    + rewrite Hout. apply outcome_for_ips, address_results_length.
  - intros ip payload s0 s1 Hfetch.
    eexists. split_and!; [apply transform_object|apply dom_record| |].
    + unfold fetched_record. by rewrite Hfetch, transform_object.
    + by rewrite process_ip_unfold, Hfetch, transform_object.
Qed.

(** A dry run of two addresses with a store that cannot be reached: the
    store is not asked; the first address is fetched and its record printed,
    the second runs out of retries and is logged; exit status 1. *)
Example dry_run_partial_failure :
  let r := run (example_world first_request_only store_down)
               ["1.2.3.4"; "8.8.8.8"] true (Some "indicator") initial in
  r.1 = Ok 1 ∧
  length (printed (trace r.2)) = 1%nat ∧
  outcomes (trace r.2)
  = [Succeeded "1.2.3.4";
     Failed "8.8.8.8" (RequestException "connection refused")] ∧
  requests r.2 = 4%nat ∧ writes r.2 = 0%nat.
Proof. by vm_compute. Qed.

Example fetched_records_partial_failure :
  let W := example_world first_request_only store_down in
  let r := run W ["1.2.3.4"; "8.8.8.8"] true (Some "indicator") initial in
  printed (trace r.2)
  = fetched_records W true (Some "indicator") None
                    (request_headers (load_env W)) 20 3 2
                    ["1.2.3.4"; "8.8.8.8"] initial ∧
  (λ doc, match doc with
          | JObj fields => fields !! "ip"
          | _ => None
          end) <$> printed (trace r.2)
  = [Some (JStr "1.2.3.4")].
Proof. by vm_compute. Qed.

(** C10 (orchestrator), as the code has it.  With numeric settings that
    parse and a start that goes through (a dry run, or a store that
    answers), [run] on the empty list processes no address (no request, no
    outcome; only the events of the start) and returns 0.  The status 1 for
    no address at all is the entry point's: it returns 1 before it calls
    [run], so that not even the store is asked. *)
Theorem run_empty_list_returns_zero (W : world) (dry_run : bool)
    (key : option string) (t m b : Z) (s : state) :
  numeric_config W = Some (t, m, b) →
  startup_failure W dry_run = None →
  run W [] dry_run key s
  = (Ok 0, record_events (if dry_run then [] else connect_events W) s)
  ∧ outcomes (if dry_run then [] else connect_events W) = []
  ∧ requested (if dry_run then [] else connect_events W) = []
  ∧ (∀ a s1,
       iter_ips_from_args W (arg_ips a) (arg_ips_file a) s = (Ok [], s1) →
       main W a s = (Ok 1, record_events [EvNoIps] s1)).
Proof.
  intros Hcfg Hstart. split_and!.
  - destruct dry_run; simpl in Hstart.
    + rewrite (run_dry W _ _ t m b) by done.
      unfold run_batch. simpl. unfold_M. simpl. f_equal.
      unfold record_events. destruct s; simpl. by rewrite app_nil_r.
    + by rewrite (run_connected W _ _ t m b).
  - destruct dry_run; [done|]. apply outcomes_connect_events.
  - destruct dry_run; [done|]. unfold connect_events.
    by destruct (mongo_create_index W).
  - intros a s1. apply main_no_ips.
Qed.

Lemma run_empty_list_returns_zero_witness :
  numeric_config (example_world always_ok None) = Some (20, 3, 2) ∧
  startup_failure (example_world always_ok None) false = None ∧
  run (example_world always_ok None) [] false (Some "indicator") initial
  = (Ok 0, record_events (connect_events (example_world always_ok None))
                         initial).
Proof.
  split; [reflexivity|]. split; [reflexivity|].
  exact (proj1 (run_empty_list_returns_zero (example_world always_ok None)
                  false (Some "indicator") 20 3 2 initial eq_refl eq_refl)).
Defined.

(** C10, as stated, fails: with a store that cannot be reached, [run] on the
    empty list returns 2, not 0. *)
Lemma run_empty_list_store_down :
  run (example_world always_ok store_down) [] false (Some "indicator") initial
  = (Ok 2,
     record_events
       (connect_failed_events (example_world always_ok store_down)
          (PyMongoError "server selection timed out")) initial)
  ∧ (run (example_world always_ok store_down) [] false (Some "indicator")
         initial).1 ≠ Ok 0.
Proof. split; [reflexivity|]. vm_compute. discriminate. Qed.

(** The end-to-end case of the specification: the first address succeeds,
    the second runs out of retries; one status line, one error line, exit
    status 1. *)

Example run_partial_failure :
  let r := run (example_world first_request_only None)
               ["1.2.3.4"; "8.8.8.8"] false (Some "indicator") initial in
  r.1 = Ok 1 ∧
  outcomes (trace r.2)
  = [Succeeded "1.2.3.4";
     Failed "8.8.8.8" (RequestException "connection refused")] ∧
  requests r.2 = 4%nat ∧ writes r.2 = 1%nat.
Proof. by vm_compute. Qed.

(* ================================================================= *)
(** ** More on the fetcher *)

Section FetchVerdicts.

Context (W : world) (ip : string) (headers : gmap string string).
Context (timeout max_retries backoff : Z).

#[local] Abbreviation url := (OTX_URL_TEMPLATE_format ip).
#[local] Abbreviation attempt_step attempt :=
  (try_except (attempt_body W headers timeout backoff url attempt)
              is_request_or_json_error
              (attempt_handler W ip max_retries backoff attempt)).
#[local] Abbreviation loop attempts :=
  (fetch_loop W ip headers timeout max_retries backoff url attempts).
#[local] Abbreviation get := (EvGet url headers timeout).

(** The loop, whatever the replies: at most one request per attempt, all to
    the URL of the address; a sleep of [backoff * attempt] after each attempt
    that is followed by another. *)
Lemma fetch_loop_shape (attempts : list Z) :
  ∀ s, ∃ n evs,
    (loop attempts s).2 = after_fetch n evs s ∧
    (n ≤ length attempts)%nat ∧
    gets evs = replicate n (url, headers, timeout) ∧
    Forall (λ e, is_fetch_event e = true) evs ∧
    sleeps evs `prefix_of` ((λ attempt, backoff * attempt) <$> attempts).
Proof.
  induction attempts as [|attempt rest IH]; intros s.
  - exists 0%nat, []. simpl. rewrite after_fetch_nil. split_and!; try done.
  - rewrite fetch_loop_cons.
    destruct (attempt_step_shape W ip headers timeout max_retries backoff
                attempt s) as (n1 & evs1 & Hs1 & Hn1 & Hg1 & Hf1 & Hsl1).
    destruct (attempt_step attempt s) as [[[|payload]|e] s1]; simpl in *;
      subst s1.
    + destruct (IH (after_fetch n1 evs1 s))
        as (n & evs & Hs & Hn & Hg & Hf & Hsl).
      exists (n1 + n)%nat, (evs1 ++ evs). rewrite Hs, after_fetch_after_fetch.
      split_and!; [done|lia| | |].
      * unfold gets in *. by rewrite omap_app, Hg1, Hg, replicate_add.
      * by apply Forall_app.
      * unfold sleeps in *. rewrite omap_app, Hsl1. by apply prefix_cons.
    + exists n1, evs1. split_and!; [done|simpl; lia|done|done|].
      rewrite Hsl1. apply prefix_nil.
    + exists n1, evs1. split_and!; [done|simpl; lia|done|done|].
      rewrite Hsl1. apply prefix_nil.
Qed.

(** An attempt whose reply is retried, that is not the last one and whose
    sleep is granted goes on to the next, after that sleep. *)
Lemma attempt_step_continues (attempt : Z) (s : state) :
  0 < timeout →
  sleep_refusal W (backoff * attempt) = None →
  attempt ≠ max_retries →
  retried (http_get W (requests s) url) →
  ∃ evs,
    attempt_step attempt s = (Ok Continue, after_fetch 1 evs s) ∧
    requested evs = [url] ∧
    sleeps evs = [backoff * attempt].
Proof.
  intros Ht Hsleep Hne%Z.eqb_neq Hretried.
  rewrite attempt_step_verdict, Hsleep, Hne.
  assert ((timeout <=? 0) = false) as -> by lia.
  destruct Hretried as [->|[e ->]]; by eexists.
Qed.

(** The first attempts are retried and another attempt is left after them:
    the loop gets past them, with one sleep each. *)
Lemma fetch_loop_skip (k : nat) :
  ∀ (a : nat) (rest : list Z) (s : state),
    0 < timeout →
    Z.of_nat (a + k) ≤ max_retries →
    (∀ j, (j < k)%nat → sleep_refusal W (backoff * Z.of_nat (a + j)) = None) →
    (∀ j, (j < k)%nat → retried (http_get W (j + requests s) url)) →
    ∃ evs,
      loop ((Z.of_nat <$> seq a k) ++ rest) s
      = loop rest (after_fetch k evs s) ∧
      requested evs = replicate k url ∧
      sleeps evs = (λ attempt, backoff * attempt) <$> (Z.of_nat <$> seq a k).
Proof.
  induction k as [|k IH]; intros a rest s Ht Hmax Hsleep Hretried.
  - exists []. simpl. by rewrite after_fetch_nil.
  - change (seq a (S k)) with (a :: seq (S a) k).
    rewrite fmap_cons. simpl app. rewrite fetch_loop_cons.
    destruct (attempt_step_continues (Z.of_nat a) s)
      as (evs1 & -> & Hreq1 & Hsl1);
      [done
      |by rewrite <- (Hsleep 0%nat ltac:(lia)), Nat.add_0_r
      |lia
      |apply (Hretried 0%nat); lia|].
    destruct (IH (S a) rest (after_fetch 1 evs1 s)) as (evs & Hrun & Hreq & Hsl);
      [done|lia|..].
    + intros j Hj. rewrite <- (Hsleep (S j)) by lia. do 2 f_equal. lia.
    + intros j Hj. simpl.
      replace (j + S (requests s))%nat with (S j + requests s)%nat by lia.
      apply Hretried. lia.
    + exists (evs1 ++ evs). rewrite Hrun, after_fetch_after_fetch.
      split_and!; [done| |].
      * unfold requested in *. by rewrite omap_app, Hreq1, Hreq.
      * unfold sleeps in *. by rewrite omap_app, Hsl1, Hsl.
Qed.

Lemma range1_split (k n : nat) :
  range1 (Z.of_nat (S (k + n)))
  = (Z.of_nat <$> seq 1 k) ++ (Z.of_nat <$> seq (S k) n).
Proof. by rewrite range1_succ, seq_app, fmap_app. Qed.

End FetchVerdicts.

Lemma total_app (l1 l2 : list Z) : total (l1 ++ l2) = total l1 + total l2.
Proof. unfold total. induction l1 as [|x l1 IH]; simpl; lia. Qed.

Lemma total_nonneg (l : list Z) : Forall (λ x, 0 ≤ x) l → 0 ≤ total l.
Proof. unfold total. induction 1; simpl; lia. Qed.

(** Twice the sum of [backoff * 1 .. backoff * n]. *)
Lemma total_backoffs (backoff : Z) (n : nat) :
  2 * total ((λ attempt, backoff * attempt) <$> (Z.of_nat <$> seq 1 n))
  = backoff * Z.of_nat n * (Z.of_nat n + 1).
Proof.
  induction n as [|n IH]; [simpl; lia|].
  rewrite seq_S, !fmap_app, total_app.
  change (total ((λ attempt, backoff * attempt) <$>
                 (Z.of_nat <$> [(1 + n)%nat])))
    with (backoff * Z.of_nat (1 + n) + 0).
  nia.
Qed.

(** X1 (fetcher).  With a timeout that is positive and a backoff whose
    sleeps of [backoff * 1], ..., [backoff * k] seconds [time.sleep] grants:
    when attempt [k + 1] is within [max_retries], the replies before it are
    retried (a 429, or a failure that the [except] clause names: transport,
    error status, body that is not JSON) and its own reply delivers a
    payload, the fetcher returns that payload after exactly [k + 1]
    requests, having slept [backoff * 1], ..., [backoff * k]; later attempts
    are not made. *)
Theorem fetch_returns_first_delivery (W : world) (ip : string)
    (headers : gmap string string) (timeout N backoff : Z) (k : nat)
    (payload : json) (s : state) :
  0 < timeout →
  Z.of_nat k < N →
  (∀ attempt, 1 ≤ attempt ≤ Z.of_nat k →
              sleep_refusal W (backoff * attempt) = None) →
  (∀ j, (j < k)%nat →
        retried (http_get W (j + requests s) (OTX_URL_TEMPLATE_format ip))) →
  verdict_of (http_get W (k + requests s) (OTX_URL_TEMPLATE_format ip))
  = Delivered payload →
  ∃ evs,
    fetch_otx_general W ip headers timeout N backoff s
    = (Ok payload, after_fetch (S k) evs s) ∧
    requested evs = replicate (S k) (OTX_URL_TEMPLATE_format ip) ∧
    sleeps evs = (λ attempt, backoff * attempt) <$> (Z.of_nat <$> seq 1 k).
Proof.
  intros Ht Hk Hsleep Hretried Hdel. unfold fetch_otx_general.
  replace (N + 1) with (Z.of_nat (S (k + (Z.to_nat N - k)))) by lia.
  rewrite range1_split.
  destruct (fetch_loop_skip W ip headers timeout N backoff k 1
              (Z.of_nat <$> seq (S k) (Z.to_nat N - k)) s)
    as (evs & -> & Hreq & Hsl);
    [done|lia|intros j Hj; apply Hsleep; lia|done|].
  destruct (Z.to_nat N - k)%nat as [|n] eqn:Hn; [lia|].
  change (seq (S k) (S n)) with (S k :: seq (S (S k)) n).
  rewrite fmap_cons, fetch_loop_cons, attempt_step_verdict. simpl requests.
  assert ((timeout <=? 0) = false) as -> by lia.
  rewrite Hdel, after_fetch_after_fetch.
  eexists. split; [by rewrite Nat.add_1_r|].
  unfold requested, sleeps in *. rewrite !omap_app, Hreq, Hsl. simpl.
  split; [|by rewrite app_nil_r].
  by rewrite <- replicate_cons_app.
Qed.

Lemma fetch_returns_first_delivery_witness :
  0 < 20 ∧
  ∃ evs,
    fetch_otx_general (example_world down_once None) "8.8.8.8" ∅ 20 3 2
                      initial
    = (Ok example_payload, after_fetch 2 evs initial) ∧
    sleeps evs = [2 * 1].
Proof.
  split; [lia|].
  destruct (fetch_returns_first_delivery (example_world down_once None)
              "8.8.8.8" ∅ 20 3 2 1 example_payload initial)
    as (evs & Hrun & _ & Hsl).
  - lia.
  - lia.
  - intros attempt Hattempt.
    rewrite sleep_refusal_in_range by (unfold longest_sleep; lia). done.
  - intros j Hj. replace j with 0%nat by lia. right. by eexists.
  - reflexivity.
  - by exists evs.
Defined.

(** X2 (fetcher).  With [max_retries >= 1], a timeout that is positive and
    a backoff whose sleeps of [backoff * 1], ..., [backoff * (max_retries
    - 1)] seconds [time.sleep] grants: when every reply but the last is
    retried, exactly [max_retries] requests are made and the last reply
    decides.  A payload is returned; a failure (transport, error status,
    body that is not JSON) or an exception of another class is raised as it
    is, after [max_retries - 1] sleeps; a 429 is slept on like the others
    ([max_retries] sleeps) and the caller gets the [RuntimeError] of the
    statement after the loop, or what that last sleep raises when it is
    refused. *)
Theorem fetch_last_reply_decides (W : world) (ip : string)
    (headers : gmap string string) (timeout N backoff : Z) (s : state) :
  1 ≤ N →
  0 < timeout →
  (∀ attempt, 1 ≤ attempt < N → sleep_refusal W (backoff * attempt) = None) →
  (∀ j, (j < Z.to_nat N - 1)%nat →
        retried (http_get W (j + requests s) (OTX_URL_TEMPLATE_format ip))) →
  ∃ evs,
    (fetch_otx_general W ip headers timeout N backoff s).2
    = after_fetch (Z.to_nat N) evs s ∧
    requested evs = replicate (Z.to_nat N) (OTX_URL_TEMPLATE_format ip) ∧
    match verdict_of (http_get W (Z.to_nat N - 1 + requests s)
                               (OTX_URL_TEMPLATE_format ip)) with
    | Delivered payload =>
        (fetch_otx_general W ip headers timeout N backoff s).1 = Ok payload ∧
        sleeps evs = (λ attempt, backoff * attempt) <$> range1 N
    | Broken e | Fatal e =>
        (fetch_otx_general W ip headers timeout N backoff s).1 = Raise e ∧
        sleeps evs = (λ attempt, backoff * attempt) <$> range1 N
    | Limited =>
        match sleep_refusal W (backoff * N) with
        | None =>
            (fetch_otx_general W ip headers timeout N backoff s).1
            = Raise fall_through ∧
            sleeps evs = (λ attempt, backoff * attempt) <$> range1 (N + 1)
        | Some e =>
            (fetch_otx_general W ip headers timeout N backoff s).1 = Raise e ∧
            sleeps evs = (λ attempt, backoff * attempt) <$> range1 N
        end
    end.
Proof.
  intros HN Ht Hsleep Hretried. unfold fetch_otx_general.
  destruct (Z.to_nat N) as [|n] eqn:HNn; [lia|].
  replace (S n - 1)%nat with n in * by lia.
  assert (range1 N = Z.of_nat <$> seq 1 n) as HrN.
  { replace N with (Z.of_nat (S n)) by lia. apply range1_succ. }
  assert (range1 (N + 1) = (Z.of_nat <$> seq 1 n) ++ [Z.of_nat (S n)]) as ->.
  { replace (N + 1) with (Z.of_nat (S (S n))) by lia.
    by rewrite range1_succ, seq_S, fmap_app. }
  rewrite HrN.
  destruct (fetch_loop_skip W ip headers timeout N backoff n 1
              [Z.of_nat (S n)] s)
    as (evs & -> & Hreq & Hsl);
    [done|lia|intros j Hj; apply Hsleep; lia|done|].
  rewrite fetch_loop_cons, attempt_step_verdict. simpl requests.
  assert ((timeout <=? 0) = false) as -> by lia.
  assert ((Z.of_nat (S n) =? N) = true) as -> by (apply Z.eqb_eq; lia).
  replace (backoff * N) with (backoff * Z.of_nat (S n)) by (f_equal; lia).
  destruct (verdict_of (http_get W (n + requests s) _)) as [p| |e|e];
    [|destruct (sleep_refusal W (backoff * Z.of_nat (S n)))|..];
    simpl; rewrite after_fetch_after_fetch; eexists;
    (split; [by rewrite Nat.add_1_r|]);
    unfold requested, sleeps in *; rewrite !omap_app, Hreq, Hsl; simpl;
    (split; [by rewrite <- replicate_cons_app|]); (split; [done|]);
    by rewrite ?fmap_app, ?app_nil_r.
Qed.

Lemma fetch_last_reply_decides_witness :
  1 ≤ 3 ∧ 0 < 20 ∧
  (fetch_otx_general (example_world always_rate_limited None) "8.8.8.8" ∅
                     20 3 2 initial).1 = Raise fall_through.
Proof.
  split; [lia|]. split; [lia|].
  destruct (fetch_last_reply_decides (example_world always_rate_limited None)
              "8.8.8.8" ∅ 20 3 2 initial) as (evs & _ & _ & Hlast).
  - lia.
  - lia.
  - intros attempt Hattempt.
    rewrite sleep_refusal_in_range by (unfold longest_sleep; lia). done.
  - intros j _. by left.
  - exact (proj1 Hlast).
Defined.

(** X3 (fetcher).  With [max_retries] zero or negative the loop has no
    iteration: no request is made, nothing is slept or logged, and the
    fetcher raises the [RuntimeError] of the statement after the loop. *)
Theorem fetch_without_attempts (W : world) (ip : string)
    (headers : gmap string string) (timeout N backoff : Z) (s : state) :
  N ≤ 0 →
  fetch_otx_general W ip headers timeout N backoff s = (Raise fall_through, s).
Proof.
  intros HN. unfold fetch_otx_general, range1.
  replace (Z.to_nat (N + 1 - 1)) with 0%nat by lia. done.
Qed.

Lemma fetch_without_attempts_witness :
  0 ≤ 0 ∧
  fetch_otx_general (example_world always_ok None) "8.8.8.8" ∅ 20 0 2 initial
  = (Raise fall_through, initial).
Proof.
  split; [lia|].
  apply (fetch_without_attempts (example_world always_ok None) "8.8.8.8" ∅
           20 0 2 initial). lia.
Defined.

(** X4 (fetcher).  With a negative backoff and a timeout that is positive
    the first retry is never made: when the first reply is a 429, or a
    failure with another attempt left, the fetcher logs its warning and the
    sleep of a negative length raises, a [ValueError] down to the longest
    sleep below zero and an [OverflowError] beyond it; the [except] clause
    names neither of them, and the caller gets it after a single request. *)
Theorem fetch_negative_backoff_never_retries (W : world) (ip : string)
    (headers : gmap string string) (timeout N backoff : Z) (s : state) :
  backoff < 0 →
  0 < timeout →
  1 ≤ N →
  (verdict_of (http_get W (requests s) (OTX_URL_TEMPLATE_format ip)) = Limited
   ∨ (2 ≤ N ∧ ∃ e, verdict_of (http_get W (requests s)
                                         (OTX_URL_TEMPLATE_format ip))
                   = Broken e)) →
  ∃ evs,
    fetch_otx_general W ip headers timeout N backoff s
    = (Raise (if backoff <? - longest_sleep
              then OverflowError
                     "timestamp too large to convert to C _PyTime_t"
              else sleep_refused),
       after_fetch 1 evs s) ∧
    requested evs = [OTX_URL_TEMPLATE_format ip] ∧
    sleeps evs = [].
Proof.
  intros Hb Ht HN Hfirst. unfold fetch_otx_general.
  replace (N + 1) with (Z.of_nat (S (S (Z.to_nat N - 1)))) by lia.
  rewrite range1_succ.
  change (seq 1 (S (Z.to_nat N - 1))) with (1%nat :: seq 2 (Z.to_nat N - 1)).
  rewrite fmap_cons, fetch_loop_cons, attempt_step_verdict.
  assert ((timeout <=? 0) = false) as -> by lia.
  rewrite sleep_refusal_negative by lia.
  replace (backoff * Z.of_nat 1) with backoff by lia.
  destruct Hfirst as [->|(HN2 & e & ->)].
  - by eexists.
  - assert ((Z.of_nat 1 =? N) = false) as -> by (apply Z.eqb_neq; lia).
    by eexists.
Qed.

Lemma fetch_negative_backoff_never_retries_witness :
  -1 < 0 ∧ 0 < 20 ∧ 1 ≤ 3 ∧
  (fetch_otx_general (example_world rate_limited_twice None) "8.8.8.8" ∅
                     20 3 (-1) initial).1 = Raise sleep_refused.
Proof.
  split; [lia|]. split; [lia|]. split; [lia|].
  destruct (fetch_negative_backoff_never_retries
              (example_world rate_limited_twice None) "8.8.8.8" ∅ 20 3 (-1)
              initial) as (evs & Hrun & _).
  - lia.
  - lia.
  - lia.
  - left. reflexivity.
  - by rewrite Hrun.
Defined.

(** The fetcher by its requests: how many, and with what. *)
Lemma fetch_shape (W : world) (ip : string) (headers : gmap string string)
    (timeout N backoff : Z) (s : state) :
  ∃ n evs,
    (fetch_otx_general W ip headers timeout N backoff s).2
    = after_fetch n evs s ∧
    (n ≤ Z.to_nat N)%nat ∧
    gets evs = replicate n (OTX_URL_TEMPLATE_format ip, headers, timeout) ∧
    Forall (λ e, is_fetch_event e = true) evs.
Proof.
  unfold fetch_otx_general.
  destruct (fetch_loop_shape W ip headers timeout N backoff
              (range1 (N + 1)) s) as (n & evs & Hs & Hn & Hg & Hf & _).
  exists n, evs. split_and!; try done.
  unfold range1 in Hn. rewrite length_fmap, length_seq in Hn. lia.
Qed.

(** X5 (fetcher).  Whatever the replies and the settings, the fetcher makes
    at most [max_retries] requests (none when [max_retries] is not
    positive), every one of them to the URL of its address with the headers
    and the timeout it was given; it reads no clock and sends nothing to the
    store; its events are requests, warnings and sleeps only, and the sleeps
    are the first of [backoff * 1], [backoff * 2], ... in this order. *)
Theorem fetch_only_asks_its_url (W : world) (ip : string)
    (headers : gmap string string) (timeout N backoff : Z) (s : state) :
  ∃ n evs,
    (fetch_otx_general W ip headers timeout N backoff s).2
    = after_fetch n evs s ∧
    (n ≤ Z.to_nat N)%nat ∧
    gets evs = replicate n (OTX_URL_TEMPLATE_format ip, headers, timeout) ∧
    Forall (λ e, is_fetch_event e = true) evs ∧
    sleeps evs `prefix_of` ((λ attempt, backoff * attempt) <$> range1 (N + 1)).
Proof.
  unfold fetch_otx_general.
  destruct (fetch_loop_shape W ip headers timeout N backoff
              (range1 (N + 1)) s) as (n & evs & Hs & Hn & Hg & Hf & Hsl).
  exists n, evs. split_and!; try done.
  unfold range1 in Hn. rewrite length_fmap, length_seq in Hn. lia.
Qed.

(** X6 (fetcher).  With a backoff that is not negative and whatever the
    replies, one call of the fetcher sleeps at most
    [backoff * (1 + 2 + ... + max_retries)] seconds in all, which is
    [backoff * max_retries * (max_retries + 1) / 2]. *)
Theorem fetch_sleeps_at_most (W : world) (ip : string)
    (headers : gmap string string) (timeout N backoff : Z) (s : state) :
  0 ≤ backoff →
  0 ≤ N →
  ∃ n evs,
    (fetch_otx_general W ip headers timeout N backoff s).2
    = after_fetch n evs s ∧
    0 ≤ total (sleeps evs) ∧
    2 * total (sleeps evs) ≤ backoff * N * (N + 1).
Proof.
  intros Hb HN. unfold fetch_otx_general.
  destruct (fetch_loop_shape W ip headers timeout N backoff
              (range1 (N + 1)) s) as (n & evs & Hs & _ & _ & _ & [rest Hsl]).
  exists n, evs. split; [done|].
  assert (Hall : Forall (λ x, 0 ≤ x)
                   ((λ attempt, backoff * attempt) <$> range1 (N + 1))).
  { unfold range1. rewrite <- list_fmap_compose. apply Forall_fmap.
    apply Forall_forall. intros a _. simpl. nia. }
  pose proof (total_backoffs backoff (Z.to_nat N)) as Hsum.
  replace (N + 1) with (Z.of_nat (S (Z.to_nat N))) in Hsl, Hall by lia.
  rewrite range1_succ in Hsl, Hall. rewrite Hsl in Hsum, Hall.
  rewrite total_app in Hsum. apply Forall_app in Hall as [Hl Hr].
  apply total_nonneg in Hl, Hr. split; [done|]. nia.
Qed.

Lemma fetch_sleeps_at_most_witness :
  0 ≤ 2 ∧ 0 ≤ 3 ∧
  ∃ n evs,
    (fetch_otx_general (example_world always_down None) "8.8.8.8" ∅ 20 3 2
                       initial).2 = after_fetch n evs initial ∧
    2 * total (sleeps evs) ≤ 2 * 3 * (3 + 1).
Proof.
  split; [lia|]. split; [lia|].
  destruct (fetch_sleeps_at_most (example_world always_down None) "8.8.8.8"
              ∅ 20 3 2 initial) as (n & evs & Hs & _ & Hle); [lia|lia|].
  by exists n, evs.
Defined.

(* ================================================================= *)
(** ** More on the input collector *)

Section Strings.

Lemma lstrip_head (s : string) :
  Str.lstrip s = EmptyString
  ∨ ∃ c r, Str.lstrip s = String c r ∧ Str.is_whitespace c = false.
Proof.
  induction s as [|c r IH]; simpl; [by left|].
  destruct (Str.is_whitespace c) eqn:Hc; [done|]. right. by exists c, r.
Qed.

Lemma rstrip_idem (s : string) : Str.rstrip (Str.rstrip s) = Str.rstrip s.
Proof.
  induction s as [|c r IH]; [done|]. simpl.
  destruct (Str.rstrip r) as [|d r'] eqn:Hr.
  - destruct (Str.is_whitespace c) eqn:Hc; simpl; [done|]. by rewrite Hc.
  - change (Str.rstrip (String c (String d r')))
      with (match Str.rstrip (String d r') with
            | EmptyString =>
                if Str.is_whitespace c then EmptyString
                else String c EmptyString
            | String d' r'' => String c (String d' r'')
            end).
    by rewrite IH.
Qed.

(** Trimming what is trimmed changes nothing. *)
Lemma strip_idem (s : string) : Str.strip (Str.strip s) = Str.strip s.
Proof.
  unfold Str.strip.
  destruct (lstrip_head s) as [->|(c & r & -> & Hc)]; [done|].
  rewrite (rstrip_cons_keep c r Hc). simpl Str.lstrip. rewrite Hc.
  rewrite <- (rstrip_cons_keep c r Hc). apply rstrip_idem.
Qed.

Lemma contains_lstrip (c : ascii) (s : string) :
  Str.contains c s = false → Str.contains c (Str.lstrip s) = false.
Proof.
  induction s as [|d r IH]; [done|]. simpl.
  intros [Hd Hr]%orb_false_iff.
  destruct (Str.is_whitespace d); [by apply IH|]. simpl. by rewrite Hd, Hr.
Qed.

Lemma contains_rstrip (c : ascii) (s : string) :
  Str.contains c s = false → Str.contains c (Str.rstrip s) = false.
Proof.
  induction s as [|d r IH]; [done|]. simpl.
  intros [Hd Hr]%orb_false_iff. specialize (IH Hr).
  destruct (Str.rstrip r) as [|d' r'].
  - destruct (Str.is_whitespace d); [done|]. simpl. by rewrite Hd.
  - simpl in *. by rewrite Hd, IH.
Qed.

Lemma contains_strip (c : ascii) (s : string) :
  Str.contains c s = false → Str.contains c (Str.strip s) = false.
Proof. intros H. by apply contains_rstrip, contains_lstrip. Qed.

(** No piece of a split holds the separator. *)
Lemma split_pieces (sep : ascii) (s : string) :
  Forall (λ piece, Str.contains sep piece = false) (Str.split sep s).
Proof.
  induction s as [|c r IH]; simpl; [by repeat constructor|].
  case_bool_decide as Hc; [by constructor|].
  destruct (Str.split sep r) as [|piece pieces].
  - constructor; [|constructor]. simpl. by rewrite bool_decide_eq_false_2.
  - apply Forall_cons in IH as [Hp Hps]. constructor; [|done].
    simpl. rewrite Hp. by rewrite bool_decide_eq_false_2.
Qed.

Lemma split_no_sep (sep : ascii) (s : string) :
  Str.contains sep s = false → Str.split sep s = [s].
Proof.
  induction s as [|c r IH]; [done|]. simpl.
  intros [Hc Hr]%orb_false_iff. rewrite Hc, (IH Hr). done.
Qed.

Lemma split_piece_sep (sep : ascii) (piece rest : string) :
  Str.contains sep piece = false →
  Str.split sep (piece +:+ String sep rest) = piece :: Str.split sep rest.
Proof.
  induction piece as [|c r IH].
  - intros _. change (EmptyString +:+ String sep rest) with (String sep rest).
    simpl. by rewrite bool_decide_eq_true_2.
  - simpl. intros [Hc Hr]%orb_false_iff.
    change (String c r +:+ String sep rest)
      with (String c (r +:+ String sep rest)).
    simpl. by rewrite Hc, (IH Hr).
Qed.

(** Splitting what was joined gives the pieces back. *)
Lemma split_join (sep : ascii) (pieces : list string) :
  pieces ≠ [] →
  Forall (λ piece, Str.contains sep piece = false) pieces →
  Str.split sep (Str.join sep pieces) = pieces.
Proof.
  induction pieces as [|piece rest IH]; [done|].
  intros _ [Hp Hrest]%Forall_cons. destruct rest as [|piece' rest'].
  - simpl. by apply split_no_sep.
  - change (Str.join sep (piece :: piece' :: rest'))
      with (piece +:+ String sep (Str.join sep (piece' :: rest'))).
    rewrite split_piece_sep by done. by rewrite IH.
Qed.

(** Writing LF as CR LF does not change the lines of a text without CR. *)
Lemma lines_from_to_crlf (text : string) :
  Str.contains Str.CR text = false →
  Str.lines_from false (Str.to_crlf text) = Str.lines_from false text.
Proof.
  induction text as [|c r IH]; [done|]. simpl.
  intros [Hc Hr]%orb_false_iff. specialize (IH Hr).
  apply bool_decide_eq_false in Hc.
  case_bool_decide as Hlf.
  - simpl. by rewrite IH.
  - simpl. rewrite bool_decide_eq_false_2 by done.
    rewrite bool_decide_eq_false_2 by done. by rewrite IH.
Qed.

End Strings.

Section CollectorFacts.

Lemma remove_seen_NoDup (l earlier : list string) :
  NoDup l → (∀ x, x ∈ l → x ∉ earlier) → remove_seen_earlier earlier l = l.
Proof.
  revert earlier. induction l as [|a l IH]; intros earlier Hnd Hfresh; [done|].
  apply NoDup_cons in Hnd as [Ha Hnd]. cbn [remove_seen_earlier].
  destruct (decide (a ∈ earlier)) as [Hin|_].
  { destruct (Hfresh a); [by left|done]. }
  f_equal. apply IH; [done|]. intros x Hx.
  rewrite elem_of_app, list_elem_of_singleton. intros [He| ->]; [|done].
  by apply (Hfresh x); [right|].
Qed.

Lemma remove_seen_nil (l : list string) :
  remove_seen_earlier [] l = [] ↔ l = [].
Proof.
  split; [|by intros ->]. destruct l as [|a l]; [done|].
  cbn [remove_seen_earlier].
  by destruct (decide (a ∈ [])) as [?%not_elem_of_nil|_].
Qed.

(** An inline address is not empty, is trimmed and holds no comma. *)
Lemma inline_addresses_shape (ips_arg : option string) (x : string) :
  x ∈ inline_addresses ips_arg →
  x ≠ EmptyString ∧ Str.strip x = x ∧ Str.contains "," x = false.
Proof.
  destruct ips_arg as [arg|]; simpl; [|by intros ?%elem_of_nil].
  intros [Hx (piece & -> & Hpiece)%list_elem_of_fmap]%list_elem_of_filter.
  split_and!; [done|apply strip_idem|].
  apply contains_strip.
  pose proof (split_pieces "," arg) as Hall.
  by apply (proj1 (Forall_forall _ _) Hall).
Qed.

(** A file address is not empty, is trimmed and does not start with the
    hash sign. *)
Lemma file_addresses_shape (contents : option string) (x : string) :
  x ∈ file_addresses contents →
  x ≠ EmptyString ∧ Str.strip x = x ∧ Str.startswith "#" x = false.
Proof.
  destruct contents as [text|]; simpl; [|by intros ?%elem_of_nil].
  intros (line & -> & [Hkeep _]%list_elem_of_filter)%list_elem_of_fmap.
  unfold discarded_line in Hkeep. pose proof (strip_head line) as Hhead.
  destruct (Str.first_non_whitespace line) as [c|]; [|done].
  destruct Hhead as [r Hr]. split_and!; [by rewrite Hr|apply strip_idem|].
  rewrite Hr. simpl. done.
Qed.

End CollectorFacts.

(** X7 (input collector).  When a file path is given and the file cannot be
    read, the collector raises the failure of [open] and yields no address
    at all, not even the inline ones; the entry point lets the failure
    through, so that the process ends with status 1 before any request and
    any use of the store. *)
Theorem unreadable_file_stops_everything (W : world) (a : args)
    (path : string) (s : state) :
  arg_ips_file a = Some path →
  Str.truthy path = true →
  read_text W path = None →
  iter_ips_from_args W (arg_ips a) (arg_ips_file a) s
  = (Raise (OSError path), s) ∧
  main W a s = (Raise (OSError path), s) ∧
  exit_status W a s = 1.
Proof.
  intros Hfile Hpath Hread.
  assert (iter_ips_from_args W (arg_ips a) (arg_ips_file a) s
          = (Raise (OSError path), s)) as Hiter.
  { unfold iter_ips_from_args, open_text. rewrite Hfile, Hpath, Hread.
    by unfold_M. }
  split; [done|]. unfold exit_status, main.
  unfold mbind, M_bind. by rewrite Hiter.
Qed.

Lemma unreadable_file_stops_everything_witness :
  exit_status (example_world always_ok None)
    {| arg_ips := Some "8.8.8.8"; arg_ips_file := Some "missing.txt";
       arg_dry_run := false; arg_upsert_key := "indicator" |} initial = 1.
Proof.
  exact (proj2 (proj2 (unreadable_file_stops_everything
                         (example_world always_ok None)
                         {| arg_ips := Some "8.8.8.8";
                            arg_ips_file := Some "missing.txt";
                            arg_dry_run := false;
                            arg_upsert_key := "indicator" |}
                         "missing.txt" initial eq_refl eq_refl eq_refl))).
Defined.

(** X8 (input collector).  Every address the collector returns is not
    empty and has no whitespace at either end; it is an inline token, which
    holds no comma, or a file line, which does not start with the hash
    sign. *)
Theorem collected_addresses_are_well_formed (W : world)
    (ips_arg ips_file contents : option string) (s : state) :
  opened W ips_file contents →
  ∃ out,
    iter_ips_from_args W ips_arg ips_file s = (Ok out, s) ∧
    ∀ x, x ∈ out →
         x ≠ EmptyString ∧ Str.strip x = x ∧
         ((x ∈ inline_addresses ips_arg ∧ Str.contains "," x = false)
          ∨ (x ∈ file_addresses contents ∧ Str.startswith "#" x = false)).
Proof.
  intros Hopen. eexists. split; [by apply iter_ips_from_args_eq|].
  intros x [[Hin|Hfile]%elem_of_app _]%elem_of_remove_seen.
  - destruct (inline_addresses_shape _ _ Hin) as (? & ? & ?).
    by split_and!; [..|left].
  - destruct (file_addresses_shape _ _ Hfile) as (? & ? & ?).
    by split_and!; [..|right].
Qed.

Lemma collected_addresses_are_well_formed_witness :
  opened (example_world always_ok None) (Some "ip_list.txt")
         (Some example_text) ∧
  ∃ out,
    iter_ips_from_args (example_world always_ok None) (Some " 1.1.1.1 ,, ")
                       (Some "ip_list.txt") initial = (Ok out, initial) ∧
    ∀ x, x ∈ out → x ≠ EmptyString ∧ Str.strip x = x.
Proof.
  assert (Hopen : opened (example_world always_ok None) (Some "ip_list.txt")
                         (Some example_text))
    by (apply opened_file; reflexivity).
  split; [exact Hopen|].
  destruct (collected_addresses_are_well_formed
              (example_world always_ok None) (Some " 1.1.1.1 ,, ")
              (Some "ip_list.txt") (Some example_text) initial Hopen)
    as (out & Hrun & Hall).
  exists out. split; [exact Hrun|]. intros x Hx.
  destruct (Hall x Hx) as (? & ? & _). by split.
Defined.

(** X9 (input collector).  A list of distinct addresses, each not empty,
    trimmed and without a comma, joined by commas and given as [--ips]
    alone, is collected as it is: same addresses, same order. *)
Theorem joined_addresses_are_collected_back (W : world)
    (addresses : list string) (s : state) :
  NoDup addresses →
  Forall (λ x, x ≠ EmptyString ∧ Str.strip x = x
               ∧ Str.contains "," x = false) addresses →
  iter_ips_from_args W (Some (Str.join "," addresses)) None s
  = (Ok addresses, s).
Proof.
  intros Hnd Hall.
  rewrite (iter_ips_from_args_eq W _ None None s (opened_absent W)).
  do 2 f_equal. simpl file_addresses. rewrite app_nil_r.
  assert (inline_addresses (Some (Str.join "," addresses)) = addresses) as ->.
  { unfold inline_addresses. destruct addresses as [|x l]; [done|].
    rewrite split_join; [|done|].
    - induction Hall as [|y l' (Hy & Hstrip & _) _ IH]; [done|].
      rewrite fmap_cons, filter_cons, Hstrip.
      rewrite decide_True by done. f_equal. apply IH.
      by apply NoDup_cons in Hnd as [_ ?].
    - eapply Forall_impl; [exact Hall|]. by intros y (_ & _ & ?). }
  apply remove_seen_NoDup; [done|]. intros x _. apply not_elem_of_nil.
Qed.

Lemma joined_addresses_are_collected_back_witness :
  NoDup ["8.8.8.8"; "1.1.1.1"] ∧
  iter_ips_from_args (example_world always_ok None)
                     (Some (Str.join "," ["8.8.8.8"; "1.1.1.1"])) None initial
  = (Ok ["8.8.8.8"; "1.1.1.1"], initial).
Proof.
  assert (Hnd : NoDup ["8.8.8.8"; "1.1.1.1"]).
  { apply NoDup_cons. split; [|apply NoDup_singleton].
    rewrite list_elem_of_singleton. discriminate. }
  split; [exact Hnd|].
  apply (joined_addresses_are_collected_back (example_world always_ok None)
           ["8.8.8.8"; "1.1.1.1"] initial Hnd).
  repeat constructor; discriminate.
Defined.

(** X10 (input collector).  The line ends of the file do not matter: a text
    without CR and the same text with every LF written as CR LF give the
    same addresses. *)
Theorem crlf_file_gives_same_addresses (W W' : world)
    (ips_arg : option string) (path path' text : string) (s s' : state) :
  Str.contains Str.CR text = false →
  opened W (Some path) (Some text) →
  opened W' (Some path') (Some (Str.to_crlf text)) →
  (iter_ips_from_args W' ips_arg (Some path') s').1
  = (iter_ips_from_args W ips_arg (Some path) s).1.
Proof.
  intros Hcr Hopen Hopen'.
  rewrite (iter_ips_from_args_eq W _ _ _ s Hopen).
  rewrite (iter_ips_from_args_eq W' _ _ _ s' Hopen'). simpl.
  unfold Str.file_lines. by rewrite lines_from_to_crlf.
Qed.

Lemma crlf_file_gives_same_addresses_witness :
  (iter_ips_from_args
     (world_with_file (Str.to_crlf ("8.8.8.8" +:+ String Str.LF "1.1.1.1")))
     None (Some "ip_list.txt") initial).1
  = Ok ["8.8.8.8"; "1.1.1.1"].
Proof.
  rewrite (crlf_file_gives_same_addresses
             (world_with_file ("8.8.8.8" +:+ String Str.LF "1.1.1.1"))
             (world_with_file
                (Str.to_crlf ("8.8.8.8" +:+ String Str.LF "1.1.1.1")))
             None "ip_list.txt" "ip_list.txt"
             ("8.8.8.8" +:+ String Str.LF "1.1.1.1") initial initial).
  - reflexivity.
  - reflexivity.
  - by apply opened_file.
  - by apply opened_file.
Defined.

(** X11 (entry point).  With sources that can be read, the entry point is
    the orchestrator applied to what the collector returns: when both
    sources yield no address (no argument, empty tokens, blank lines and
    comments only) it prints the usage line and returns 1 with nothing else
    done; otherwise it returns what [run] returns on the collected
    addresses, with the flags of the command line. *)
Theorem main_runs_the_collected_addresses (W : world) (a : args)
    (contents : option string) (s : state) :
  opened W (arg_ips_file a) contents →
  main W a s
  = match remove_seen_earlier []
            (inline_addresses (arg_ips a) ++ file_addresses contents) with
    | [] => (Ok 1, record_events [EvNoIps] s)
    | ip :: ips =>
        run W (ip :: ips) (arg_dry_run a) (Some (arg_upsert_key a)) s
    end
  ∧ (remove_seen_earlier []
       (inline_addresses (arg_ips a) ++ file_addresses contents) = []
     ↔ inline_addresses (arg_ips a) = [] ∧ file_addresses contents = []).
Proof.
  intros Hopen. split.
  - unfold main. unfold mbind at 1. unfold M_bind at 1.
    rewrite (iter_ips_from_args_eq W _ _ _ s Hopen).
    destruct (remove_seen_earlier _ _); [by unfold_M|done].
  - rewrite remove_seen_nil. split; [by intros ?%app_eq_nil|].
    by intros [-> ->].
Qed.

Lemma main_runs_the_collected_addresses_witness :
  opened (example_world always_ok None) None None ∧
  main (example_world always_ok None)
       {| arg_ips := Some " , ,"; arg_ips_file := None;
          arg_dry_run := false; arg_upsert_key := "indicator" |} initial
  = (Ok 1, record_events [EvNoIps] initial).
Proof.
  split; [apply opened_absent|].
  exact (proj1 (main_runs_the_collected_addresses
                  (example_world always_ok None)
                  {| arg_ips := Some " , ,"; arg_ips_file := None;
                     arg_dry_run := false; arg_upsert_key := "indicator" |}
                  None initial (opened_absent _))).
Defined.

(* ================================================================= *)
(** ** More on the orchestrator *)

Lemma gets_app (evs1 evs2 : list event) :
  gets (evs1 ++ evs2) = gets evs1 ++ gets evs2.
Proof. apply omap_app. Qed.

Lemma store_writes_app (evs1 evs2 : list event) :
  store_writes (evs1 ++ evs2) = store_writes evs1 ++ store_writes evs2.
Proof. apply filter_app. Qed.

Lemma store_writes_cons (e : event) (evs : list event) :
  store_writes (e :: evs)
  = if is_write e then e :: store_writes evs else store_writes evs.
Proof.
  unfold store_writes. rewrite filter_cons.
  destruct (is_write e); [by rewrite decide_True|by rewrite decide_False].
Qed.

Lemma store_writes_nil : store_writes [] = [].
Proof. done. Qed.

Lemma store_writes_fetch_events (evs : list event) :
  Forall (λ e, is_fetch_event e = true) evs → store_writes evs = [].
Proof.
  induction 1 as [|e evs He _ IH]; [done|].
  unfold store_writes in *. rewrite filter_cons, IH. by destruct e.
Qed.


Section Effects.

Context (W : world).
Context (dry_run : bool) (upsert_key : option string).
Context (coll : option collection) (headers : gmap string string).
Context (timeout max_retries backoff : Z).

#[local] Abbreviation process ip :=
  (process_ip W dry_run upsert_key coll headers timeout max_retries backoff ip).
#[local] Abbreviation loop ips successes :=
  (run_loop W dry_run upsert_key coll headers timeout max_retries backoff
            ips successes).
#[local] Abbreviation request_of ip :=
  (OTX_URL_TEMPLATE_format ip, headers, timeout).

(** One address, with its requests and its writes counted. *)
Lemma process_ip_effects (ip : string) (s : state) :
  ∃ n evs,
    trace (process ip s).2 = trace s ++ evs ∧
    requests (process ip s).2 = (n + requests s)%nat ∧
    (n ≤ Z.to_nat max_retries)%nat ∧
    gets evs = replicate n (request_of ip) ∧
    writes (process ip s).2 = (length (store_writes evs) + writes s)%nat ∧
    Forall writes_record (store_writes evs) ∧
    (length (store_writes evs) ≤ 1)%nat ∧
    (dry_run = true → store_writes evs = []) ∧
    match (process ip s).1 with
    | Ok _ =>
        outcomes evs = [Succeeded ip] ∧
        (dry_run = false → length (store_writes evs) = 1%nat)
    | Raise _ => outcomes evs = []
    end.
Proof.
  rewrite process_ip_unfold.
  destruct (fetch_shape W ip headers timeout max_retries backoff s)
    as (n & evs & Hs & Hn & Hg & Hev).
  pose proof (outcomes_fetch_events _ Hev) as Hout.
  pose proof (store_writes_fetch_events _ Hev) as Hw.
  destruct (fetch_otx_general _ _ _ _ _ _ s) as [[payload|e] s1];
    simpl in Hs; subst s1.
  2:{ exists n, evs. simpl. rewrite Hw. split_and!; try done. simpl. lia. }
  destruct (is_dict payload) eqn:Hdict.
  2:{ rewrite transform_not_object by done. exists n, evs. simpl.
      rewrite Hw. split_and!; try done. simpl. lia. }
  destruct payload as [| | | | | |payload]; try done.
  rewrite transform_object.
  match goal with
  | |- context [EvPrintJson (JObj ?r)] =>
      set (record := r);
      assert (dom record = record_keys) as Hdom by apply dom_record;
      assert (outcomes [EvPrintJson (JObj record)] = [Succeeded ip]) as Hprint
        by done
  end.
  clearbody record.
  destruct dry_run.
  - exists n, (evs ++ [EvPrintJson (JObj record)]). simpl.
    rewrite gets_app, store_writes_app, outcomes_app, Hg, Hw, Hout, Hprint.
    rewrite ?store_writes_cons, store_writes_nil. cbn. rewrite app_nil_r.
    effects_done.
  - unfold upsert_document, coll_call, store_write. unfold_M.
    destruct coll as [c|].
    2:{ exists n, evs. rewrite Hw.
        destruct (upsert_filter record upsert_key) as [[key v]|]; simpl;
          split_and!; try done; lia. }
    destruct (upsert_filter record upsert_key) as [[key v]|] eqn:Hfilter.
    + apply upsert_filter_Some in Hfilter as [(_ & Hv & Hnull) _].
      assert (writes_record (EvUpdateOne {[ key := v ]} record true)) as Hrec.
      { split; [done|]. split; [done|]. by exists key, v. }
      destruct (mongo_write W _); simpl.
      * exists n, (evs ++ [EvUpdateOne {[ key := v ]} record true]).
        rewrite gets_app, store_writes_app, outcomes_app, Hg, Hw, Hout.
        rewrite ?store_writes_cons, store_writes_nil. cbn. rewrite app_nil_r.
        effects_done.
      * exists n, (evs ++ [EvUpdateOne {[ key := v ]} record true;
                           EvInfo ip "upserted"]).
        rewrite gets_app, store_writes_app, outcomes_app, Hg, Hw, Hout.
        rewrite ?store_writes_cons, store_writes_nil. cbn. rewrite app_nil_r.
        effects_done.
    + destruct (mongo_write W _); simpl.
      * exists n, (evs ++ [EvInsertOne record]).
        rewrite gets_app, store_writes_app, outcomes_app, Hg, Hw, Hout.
        rewrite ?store_writes_cons, store_writes_nil. cbn. rewrite app_nil_r.
        effects_done.
      * exists n, (evs ++ [EvInsertOne record; EvInfo ip "inserted"]).
        rewrite gets_app, store_writes_app, outcomes_app, Hg, Hw, Hout.
        rewrite ?store_writes_cons, store_writes_nil. cbn. rewrite app_nil_r.
        effects_done.
Qed.

(** The loop, with its requests and its writes counted: [k] addresses
    succeed, the others fail. *)
Lemma run_loop_effects (ips : list string) :
  ∀ (successes : Z) (s : state),
    ∃ (k : nat) evs s',
      loop ips successes s = (Ok (successes + Z.of_nat k), s') ∧
      trace s' = trace s ++ evs ∧
      (k + length (failures evs) = length ips)%nat ∧
      requests s' = (length (gets evs) + requests s)%nat ∧
      (length (gets evs) ≤ length ips * Z.to_nat max_retries)%nat ∧
      Forall (λ g, ∃ ip, ip ∈ ips ∧ g = request_of ip) (gets evs) ∧
      writes s' = (length (store_writes evs) + writes s)%nat ∧
      Forall writes_record (store_writes evs) ∧
      (length (store_writes evs) ≤ length ips)%nat ∧
      (dry_run = true → store_writes evs = []) ∧
      (dry_run = false → k ≤ length (store_writes evs))%nat.
Proof.
  induction ips as [|ip rest IH]; intros successes s.
  - exists 0%nat, [], s. simpl. unfold mret, M_ret.
    split_and!; try done; [do 2 f_equal; lia|by rewrite app_nil_r].
  - rewrite run_loop_cons.
    destruct (process_ip_effects ip s)
      as (n & evs1 & Htr1 & Hrq1 & Hn & Hg1 & Hw1 & Hrec1 & Hle1 & Hdry1 & Hres).
    assert (Forall (λ g, ∃ ip', ip' ∈ ip :: rest ∧ g = request_of ip')
                   (gets evs1)) as Hall1.
    { rewrite Hg1. apply Forall_replicate. exists ip. by split; [left|]. }
    assert (length (gets evs1) = n) as Hlen1 by (by rewrite Hg1, length_replicate).
    destruct (process ip s) as [[[]|e] s1]; simpl in *.
    + destruct Hres as [Hout1 Hone].
      destruct (IH (successes + 1) s1)
        as (k & evs & s' & Hrun & Htr & Hk & Hrq & Hgn & Hall & Hw & Hrec
            & Hle & Hdry & Hreal).
      exists (S k), (evs1 ++ evs), s'.
      rewrite gets_app, store_writes_app, !length_app.
      split_and!.
      * rewrite Hrun. do 2 f_equal. lia.
      * by rewrite Htr, Htr1, app_assoc.
      * unfold failures. rewrite outcomes_app, Hout1. simpl.
        rewrite failures_cons_succeeded. fold (failures evs). lia.
      * lia.
      * lia.
      * apply Forall_app. split; [done|].
        eapply Forall_impl; [exact Hall|].
        intros g (ip' & Hin & ->). exists ip'. by split; [right|].
      * lia.
      * by apply Forall_app.
      * lia.
      * intros Hd. by rewrite Hdry1, Hdry.
      * intros Hd. specialize (Hone Hd). specialize (Hreal Hd). lia.
    + destruct (IH successes (record_events [EvErrorFailed ip e] s1))
        as (k & evs & s' & Hrun & Htr & Hk & Hrq & Hgn & Hall & Hw & Hrec
            & Hle & Hdry & Hreal).
      exists k, (evs1 ++ EvErrorFailed ip e :: evs), s'.
      rewrite gets_app, store_writes_app, store_writes_cons, !length_app.
      change (gets (EvErrorFailed ip e :: evs)) with (gets evs).
      cbn [is_write]. simpl in Hrq, Hw.
      split_and!.
      * done.
      * rewrite Htr. simpl. rewrite Htr1. by rewrite <- !app_assoc.
      * unfold failures. rewrite outcomes_app, Hres, app_nil_l, outcomes_cons.
        cbn [outcome_of]. rewrite filter_cons_True by done.
        rewrite length_cons. fold (failures evs). lia.
      * lia.
      * lia.
      * apply Forall_app. split; [done|].
        eapply Forall_impl; [exact Hall|].
        intros g (ip' & Hin & ->). exists ip'. by split; [right|].
      * lia.
      * by apply Forall_app.
      * lia.
      * intros Hd. by rewrite Hdry1, Hdry.
      * intros Hd. specialize (Hreal Hd). lia.
Qed.

End Effects.

Section RunEffects.

Context (W : world).

Lemma run_batch_effects (ips : list string) (dry_run : bool)
    (key : option string) (coll : option collection)
    (headers : gmap string string) (t m b : Z) (s : state) :
  ∃ (k : nat) evs s',
    run_batch W ips dry_run key coll headers t m b s
    = (Ok (if decide (k = length ips) then 0 else 1), s') ∧
    trace s' = trace s ++ evs ∧
    (k + length (failures evs) = length ips)%nat ∧
    requests s' = (length (gets evs) + requests s)%nat ∧
    (length (gets evs) ≤ length ips * Z.to_nat m)%nat ∧
    Forall (λ g, ∃ ip, ip ∈ ips ∧ g = (OTX_URL_TEMPLATE_format ip, headers, t))
           (gets evs) ∧
    writes s' = (length (store_writes evs) + writes s)%nat ∧
    Forall writes_record (store_writes evs) ∧
    (length (store_writes evs) ≤ length ips)%nat ∧
    (dry_run = true → store_writes evs = []) ∧
    (dry_run = false → k ≤ length (store_writes evs))%nat.
Proof.
  destruct (run_loop_effects W dry_run key coll headers t m b ips 0 s)
    as (k & evs & s' & Hrun & Hrest).
  exists k, evs, s'. split; [|done].
  unfold run_batch. unfold_M. rewrite Hrun.
  destruct (decide (k = length ips)) as [->|Hne].
  - by rewrite (proj2 (Z.eqb_eq _ _)) by lia.
  - by rewrite (proj2 (Z.eqb_neq _ _)) by lia.
Qed.

Lemma gets_connect_events : gets (connect_events W) = [].
Proof. unfold connect_events. by destruct (mongo_create_index W). Qed.


End RunEffects.

(** X12 (orchestrator).  With numeric settings that parse, whatever
    happens, every request of a run goes to the URL of one of the given
    addresses, with the headers built from the environment and the timeout
    of the settings; there are at most [max_retries] requests per address
    (none when the store cannot be reached at startup). *)
Theorem run_only_asks_for_its_addresses (W : world) (ips : list string)
    (dry_run : bool) (key : option string) (t m b : Z) (s : state) :
  numeric_config W = Some (t, m, b) →
  ∃ evs,
    trace (run W ips dry_run key s).2 = trace s ++ evs ∧
    requests (run W ips dry_run key s).2
    = (length (gets evs) + requests s)%nat ∧
    (length (gets evs) ≤ length ips * Z.to_nat m)%nat ∧
    Forall (λ g, ∃ ip, ip ∈ ips ∧
                 g = (OTX_URL_TEMPLATE_format ip,
                      request_headers (load_env W), t))
           (gets evs) ∧
    (is_Some (startup_failure W dry_run) → gets evs = []).
Proof.
  intros Hcfg. destruct dry_run.
  - rewrite (run_dry W _ _ t m b) by done.
    destruct (run_batch_effects W ips true key None
                (request_headers (load_env W)) t m b s)
      as (k & evs & s' & -> & Htr & _ & Hrq & Hn & Hall & _).
    exists evs. split_and!; try done. by intros [? [=]].
  - destruct (mongo_ping W) as [e|] eqn:Hping.
    + rewrite (run_store_down W _ _ t m b e) by done.
      exists (connect_failed_events W e). simpl. split_and!; try done. lia.
    + rewrite (run_connected W _ _ t m b) by done.
      destruct (run_batch_effects W ips false key
                  (Some {| coll_db := MONGO_DB (load_env W);
                           coll_name := MONGO_COLLECTION (load_env W) |})
                  (request_headers (load_env W)) t m b
                  (record_events (connect_events W) s))
        as (k & evs & s' & -> & Htr & _ & Hrq & Hn & Hall & _).
      exists (connect_events W ++ evs).
      rewrite gets_app, gets_connect_events. cbn [app snd].
      cbn [requests record_events] in Hrq.
      split_and!; try done.
      * rewrite Htr. cbn [trace record_events]. by rewrite <- app_assoc.
      * unfold startup_failure. rewrite Hping. by intros [? [=]].
Qed.

Lemma run_only_asks_for_its_addresses_witness :
  numeric_config (example_world rate_limited_twice None) = Some (20, 3, 2) ∧
  ∃ evs,
    trace (run (example_world rate_limited_twice None) ["8.8.8.8"] true
               (Some "indicator") initial).2 = evs ∧
    (length (gets evs) ≤ 1 * 3)%nat.
Proof.
  split; [reflexivity|].
  destruct (run_only_asks_for_its_addresses
              (example_world rate_limited_twice None) ["8.8.8.8"] true
              (Some "indicator") 20 3 2 initial eq_refl)
    as (evs & Htr & _ & Hn & _).
  exists evs. by split.
Defined.

(** X13 (orchestrator).  The request headers: [Accept] is always
    [application/json]; [User-Agent] is the configured one, and the default
    one when the variable is unset or empty; [X-OTX-API-KEY] is sent exactly
    when a key that is not empty is configured; there is no other header. *)
Theorem request_headers_from_environment (W : world) :
  request_headers (load_env W) !! "Accept" = Some "application/json" ∧
  request_headers (load_env W) !! "User-Agent"
  = Some (match getenv W "OTX_USER_AGENT" with
          | Some agent => if Str.truthy agent then agent else "SSN-SA-ETL/1.0"
          | None => "SSN-SA-ETL/1.0"
          end) ∧
  request_headers (load_env W) !! "X-OTX-API-KEY"
  = match getenv W "OTX_API_KEY" with
    | Some api_key => if Str.truthy api_key then Some api_key else None
    | None => None
    end ∧
  (∀ name, is_Some (request_headers (load_env W) !! name) →
           name = "Accept" ∨ name = "User-Agent" ∨ name = "X-OTX-API-KEY").
Proof.
  unfold request_headers, load_env, os_getenv. simpl.
  destruct (getenv W "OTX_USER_AGENT") as [agent|],
           (getenv W "OTX_API_KEY") as [api_key|]; simpl;
    try destruct (Str.truthy api_key); try destruct (Str.truthy agent);
    (split_and!; [by simplify_map_eq..|]);
    intros name [v Hv];
    repeat (apply lookup_insert_Some in Hv as [[<- _]|[_ Hv]]; [tauto|]);
    by apply lookup_singleton_Some in Hv as [<- _]; tauto.
Qed.


Section RealRun.

Context (W : world) (key : option string) (c : collection).
Context (headers : gmap string string) (timeout max_retries backoff : Z).

#[local] Abbreviation process ip :=
  (process_ip W false key (Some c) headers timeout max_retries backoff ip).
#[local] Abbreviation loop ips successes :=
  (run_loop W false key (Some c) headers timeout max_retries backoff
            ips successes).



End RealRun.



(** X15 (orchestrator).  A reply whose body is valid JSON but not an object
    (a list, a string, a number, null) passes the fetcher and fails in the
    transformer: reading a field of it raises [AttributeError], after the
    clock was read; nothing is printed and nothing is written, the address
    is logged as failed, and the loop goes on. *)
Theorem payload_that_is_no_object_fails_its_address (W : world)
    (dry_run : bool) (key : option string) (coll : option collection)
    (headers : gmap string string) (t m b : Z) (ip : string)
    (rest : list string) (successes : Z) (payload : json) (s s1 : state) :
  fetch_otx_general W ip headers t m b s = (Ok payload, s1) →
  is_dict payload = false →
  process_ip W dry_run key coll headers t m b ip s
  = (Raise (AttributeError "get"), after_clock s1) ∧
  run_loop W dry_run key coll headers t m b (ip :: rest) successes s
  = run_loop W dry_run key coll headers t m b rest successes
             (record_events [EvErrorFailed ip (AttributeError "get")]
                            (after_clock s1)).
Proof.
  intros Hfetch Hdict.
  assert (process_ip W dry_run key coll headers t m b ip s
          = (Raise (AttributeError "get"), after_clock s1)) as Hp.
  { by rewrite process_ip_unfold, Hfetch, transform_not_object. }
  split; [done|]. by rewrite run_loop_cons, Hp.
Qed.

Lemma payload_that_is_no_object_fails_its_address_witness :
  (run (example_world list_reply None) ["8.8.8.8"] false (Some "indicator")
       initial).1 = Ok 1 ∧
  process_ip (example_world list_reply None) false (Some "indicator")
             (Some example_collection) ∅ 20 3 2 "8.8.8.8" initial
  = (Raise (AttributeError "get"),
     after_clock (after_fetch 1 [EvGet (OTX_URL_TEMPLATE_format "8.8.8.8")
                                       ∅ 20] initial)).
Proof.
  split; [by vm_compute|].
  exact (proj1 (payload_that_is_no_object_fails_its_address
                  (example_world list_reply None) false (Some "indicator")
                  (Some example_collection) ∅ 20 3 2 "8.8.8.8" [] 0
                  (JArr [JInt 1]) initial
                  (after_fetch 1 [EvGet (OTX_URL_TEMPLATE_format "8.8.8.8")
                                        ∅ 20] initial)
                  eq_refl eq_refl)).
Defined.

Section ExitStatus.

Context (W : world).

(** The collector returns a list or raises the failure of [open]; it leaves
    the state as it was. *)
Lemma iter_ips_from_args_total (ips_arg ips_file : option string) (s : state) :
  (∃ out, iter_ips_from_args W ips_arg ips_file s = (Ok out, s))
  ∨ (∃ path, iter_ips_from_args W ips_arg ips_file s
             = (Raise (OSError path), s)).
Proof.
  unfold iter_ips_from_args, open_text. unfold_M.
  destruct ips_file as [path|]; [|by left; eexists].
  destruct (Str.truthy path); [|by left; eexists].
  destruct (read_text W path); [by left; eexists|by right; eexists].
Qed.

(** What [run] can end with. *)
Lemma run_result (ips : list string) (dry_run : bool) (key : option string)
    (s : state) :
  (∃ msg, (run W ips dry_run key s).1 = Raise (ValueError msg)
          ∧ numeric_config W = None)
  ∨ ((run W ips dry_run key s).1 = Ok 2 ∧ dry_run = false
     ∧ is_Some (mongo_ping W))
  ∨ (((run W ips dry_run key s).1 = Ok 0 ∨ (run W ips dry_run key s).1 = Ok 1)
     ∧ is_Some (numeric_config W) ∧ startup_failure W dry_run = None).
Proof.
  destruct (numeric_config W) as [[[t m] b]|] eqn:Hcfg.
  - destruct (startup_failure W dry_run) as [e|] eqn:Hstart.
    + right. left. destruct dry_run; [done|]. simpl in Hstart.
      rewrite (run_store_down W _ _ t m b e) by done. by rewrite Hstart.
    + right. right.
      destruct (run_started W ips dry_run key t m b s Hcfg Hstart)
        as (evs & s' & -> & _).
      split; [|done]. simpl. destruct (decide _); [by left|by right].
  - left. destruct (run_config_error W ips dry_run key s Hcfg) as [msg ->].
    by exists msg.
Qed.

Lemma exit_status_unfold (a : args) (s : state) :
  exit_status W a s
  = match iter_ips_from_args W (arg_ips a) (arg_ips_file a) s with
    | (Raise _, _) => 1
    | (Ok [], _) => 1
    | (Ok (ip :: ips), s1) =>
        match run W (ip :: ips) (arg_dry_run a) (Some (arg_upsert_key a)) s1
        with
        | (Ok status, _) => status
        | (Raise _, _) => 1
        end
    end.
Proof.
  unfold exit_status, main. unfold_M.
  by destruct (iter_ips_from_args W _ _ s) as [[[|ip ips]|e] s1].
Qed.

End ExitStatus.

(** X17 (entry point).  Whatever the parsed command line and the world, the
    process ends with status 0, 1 or 2; with 2 only in a real run whose
    store cannot be reached, and with 0 only when the numeric settings parse
    and the start went through.  A failure that nobody catches (a file that
    cannot be read, a setting that is no number) gives 1. *)
Theorem exit_status_is_0_1_or_2 (W : world) (a : args) (s : state) :
  (exit_status W a s = 0 ∨ exit_status W a s = 1 ∨ exit_status W a s = 2) ∧
  (exit_status W a s = 2 →
   arg_dry_run a = false ∧ is_Some (mongo_ping W)) ∧
  (exit_status W a s = 0 →
   is_Some (numeric_config W) ∧ startup_failure W (arg_dry_run a) = None).
Proof.
  rewrite exit_status_unfold.
  destruct (iter_ips_from_args_total W (arg_ips a) (arg_ips_file a) s)
    as [[out ->]|[path ->]].
  2:{ split_and!; [lia|by intros [=]..]. }
  destruct out as [|ip ips].
  { split_and!; [lia|by intros [=]..]. }
  destruct (run_result W (ip :: ips) (arg_dry_run a)
              (Some (arg_upsert_key a)) s)
    as [(msg & Hr & _)|[(Hr & Hdry & Hping)|([Hr|Hr] & Hcfg & Hstart)]];
    destruct (run W (ip :: ips) _ _ s) as [[status|e] s'];
    simpl in Hr; simplify_eq;
    (split_and!; [lia|try done; by intros [=]..]).
Qed.

(* ================================================================= *)
(** ** The trace is write-only *)

Section HistoryFree.

Context (W : world).

Lemma shift_record_events (pre evs : list event) (s : state) :
  record_events evs (shift pre s) = shift pre (record_events evs s).
Proof. unfold record_events, shift. simpl. by rewrite app_assoc. Qed.

Lemma history_free_ret {A} (a : A) : history_free (mret a : M A).
Proof. by intros pre s. Qed.

Lemma history_free_raise {A} (e : exn) : history_free (raise e : M A).
Proof. by intros pre s. Qed.

Lemma history_free_bind {A B} (m : M A) (f : A → M B) :
  history_free m → (∀ a, history_free (f a)) → history_free (m ≫= f).
Proof.
  intros Hm Hf pre s. unfold mbind, M_bind. rewrite Hm.
  destruct (m s) as [[a|e] s1]; [apply Hf|done].
Qed.

Lemma history_free_try {A} (body : M A) (caught : exn → bool)
    (handler : exn → M A) :
  history_free body → (∀ e, history_free (handler e)) →
  history_free (try_except body caught handler).
Proof.
  intros Hm Hh pre s. unfold try_except. rewrite Hm.
  destruct (body s) as [[a|e] s1]; [done|].
  destruct (caught e); [apply Hh|done].
Qed.

Lemma history_free_emit (e : event) : history_free (emit e).
Proof. intros pre s. unfold emit. by rewrite shift_record_events. Qed.

Lemma history_free_time_sleep (seconds : Z) :
  history_free (time_sleep W seconds).
Proof.
  unfold time_sleep. destruct (sleep_refusal W seconds);
    [apply history_free_raise|apply history_free_emit].
Qed.

Lemma history_free_requests_get url headers timeout :
  history_free (requests_get W url headers timeout).
Proof.
  intros pre s. unfold requests_get, shift. simpl.
  destruct (timeout <=? 0); [done|].
  destruct (http_get W (requests s) url); simpl; by rewrite <- app_assoc.
Qed.

Lemma history_free_store_write (op : event) : history_free (store_write W op).
Proof.
  intros pre s. unfold store_write, shift. simpl.
  destruct (mongo_write W (writes s)); simpl; by rewrite <- app_assoc.
Qed.

Lemma history_free_utc_now : history_free (utc_now_isoformat W).
Proof. by intros pre s. Qed.

Lemma history_free_py_get value key dflt : history_free (py_get value key dflt).
Proof.
  destruct value; simpl; (apply history_free_raise || apply history_free_ret).
Qed.

Section HistoryFreeFetch.

Context (ip : string) (headers : gmap string string).
Context (timeout max_retries backoff : Z).

Lemma history_free_fetch_loop (url : string) (attempts : list Z) :
  history_free (fetch_loop W ip headers timeout max_retries backoff url
                           attempts).
Proof.
  induction attempts as [|attempt rest IH]; [apply history_free_raise|].
  simpl. apply history_free_bind.
  - apply history_free_try.
    + unfold attempt_body. apply history_free_bind;
        [apply history_free_requests_get|]. intros resp.
      destruct (status_code resp =? 429).
      * repeat (apply history_free_bind; [|intros ?]);
          auto using history_free_emit, history_free_time_sleep,
            history_free_ret.
      * unfold raise_for_status, resp_json.
        repeat (apply history_free_bind; [|intros ?]);
          repeat case_match;
          auto using history_free_raise, history_free_ret.
    + intros e. unfold attempt_handler.
      destruct (attempt =? max_retries); [apply history_free_raise|].
      repeat (apply history_free_bind; [|intros ?]);
        auto using history_free_emit, history_free_time_sleep,
          history_free_ret.
  - intros [|payload]; [done|apply history_free_ret].
Qed.

End HistoryFreeFetch.

Lemma history_free_transform (ip : string) (payload : json) :
  history_free (transform W ip payload).
Proof.
  unfold transform.
  repeat (apply history_free_bind; [|intros ?]);
    repeat case_match;
    repeat (apply history_free_bind; [|intros ?]);
    auto using history_free_utc_now, history_free_py_get, history_free_ret.
Qed.

Lemma history_free_upsert_document coll doc key :
  history_free (upsert_document W coll doc key).
Proof.
  unfold upsert_document, coll_call.
  repeat case_match;
    repeat (apply history_free_bind; [|intros ?]);
    auto using history_free_store_write, history_free_raise, history_free_ret.
Qed.

Lemma history_free_run_loop dry_run key coll headers t m b (ips : list string) :
  ∀ successes,
    history_free (run_loop W dry_run key coll headers t m b ips successes).
Proof.
  induction ips as [|ip rest IH]; intros successes; [apply history_free_ret|].
  simpl. apply history_free_bind; [|intros ?; apply IH].
  apply history_free_try.
  - apply history_free_bind; [|intros ?; apply history_free_ret].
    unfold process_ip, fetch_otx_general.
    apply history_free_bind; [apply history_free_fetch_loop|]. intros payload.
    apply history_free_bind; [apply history_free_transform|]. intros doc.
    destruct dry_run; [apply history_free_emit|].
    apply history_free_bind; [apply history_free_upsert_document|].
    intros status. apply history_free_emit.
  - intros e. apply history_free_bind; [apply history_free_emit|].
    intros _. apply history_free_ret.
Qed.

Lemma history_free_run_batch ips dry_run key coll headers t m b :
  history_free (run_batch W ips dry_run key coll headers t m b).
Proof.
  unfold run_batch. apply history_free_bind;
    [apply history_free_run_loop|intros ?; apply history_free_ret].
Qed.

End HistoryFree.

Section IndexAnswer.

Context (W : world) (answer : option string).

#[local] Abbreviation W' := (with_create_index W answer).

Lemma fetch_loop_with_create_index ip headers t m b url (attempts : list Z) :
  ∀ s, fetch_loop W' ip headers t m b url attempts s
       = fetch_loop W ip headers t m b url attempts s.
Proof.
  induction attempts as [|attempt rest IH]; intros s; [done|].
  rewrite !fetch_loop_cons.
  change (attempt_body W' headers t b url attempt)
    with (attempt_body W headers t b url attempt).
  change (attempt_handler W' ip m b attempt)
    with (attempt_handler W ip m b attempt).
  destruct (try_except _ _ _ s) as [[[|payload]|e] s1]; [apply IH|done..].
Qed.

Lemma process_ip_with_create_index dry_run key coll headers t m b ip s :
  process_ip W' dry_run key coll headers t m b ip s
  = process_ip W dry_run key coll headers t m b ip s.
Proof.
  rewrite !process_ip_unfold. unfold fetch_otx_general.
  rewrite fetch_loop_with_create_index.
  destruct (fetch_loop W _ _ _ _ _ _ _ s) as [[payload|e] s1]; [|done].
  change (transform W' ip payload s1) with (transform W ip payload s1).
  destruct (transform W ip payload s1) as [[doc|e] s2]; [|done].
  destruct dry_run; [done|].
  change (upsert_document W' coll doc key s2)
    with (upsert_document W coll doc key s2).
  done.
Qed.

Lemma run_loop_with_create_index dry_run key coll headers t m b
    (ips : list string) :
  ∀ successes s,
    run_loop W' dry_run key coll headers t m b ips successes s
    = run_loop W dry_run key coll headers t m b ips successes s.
Proof.
  induction ips as [|ip rest IH]; intros successes s; [done|].
  rewrite !run_loop_cons, process_ip_with_create_index.
  destruct (process_ip W _ _ _ _ _ _ _ _ s) as [[[]|e] s1]; apply IH.
Qed.

Lemma run_batch_with_create_index ips dry_run key coll headers t m b s :
  run_batch W' ips dry_run key coll headers t m b s
  = run_batch W ips dry_run key coll headers t m b s.
Proof.
  unfold run_batch. unfold mbind, M_bind.
  by rewrite run_loop_with_create_index.
Qed.

End IndexAnswer.

(** X16 (persistence layer and orchestrator).  A refused index is a warning
    and nothing more: a real run whose [create_index] is refused returns the
    same status, sends the same requests and writes and prints the same
    lines, address by address, as the run whose index is accepted; the only
    difference is the warning after the index was asked for. *)
Theorem refused_index_only_adds_a_warning (W : world) (detail : string)
    (ips : list string) (key : option string) (t m b : Z) (s : state) :
  numeric_config W = Some (t, m, b) →
  mongo_ping W = None →
  ∃ status evs s',
    run (with_create_index W None) ips false key s = (Ok status, s') ∧
    trace s'
    = trace s
      ++ [EvConnect (MONGO_URI (load_env W));
          EvCreateIndex (MONGO_DB (load_env W))
                        (MONGO_COLLECTION (load_env W))]
      ++ evs ∧
    run (with_create_index W (Some detail)) ips false key s
    = (Ok status,
       {| requests := requests s'; clock_reads := clock_reads s';
          writes := writes s';
          trace := trace s
                   ++ [EvConnect (MONGO_URI (load_env W));
                       EvCreateIndex (MONGO_DB (load_env W))
                                     (MONGO_COLLECTION (load_env W));
                       EvWarnIndex (PyMongoError detail)]
                   ++ evs |}).
Proof.
  intros Hcfg Hping.
  rewrite (run_connected (with_create_index W None) ips key t m b s Hcfg Hping).
  rewrite (run_connected (with_create_index W (Some detail)) ips key t m b s
             Hcfg Hping).
  rewrite !run_batch_with_create_index.
  set (coll := Some {| coll_db := _; coll_name := _ |}).
  set (headers := request_headers _).
  set (s0 := {| requests := requests s; clock_reads := clock_reads s;
                writes := writes s; trace := [] |}).
  assert (∀ evs, record_events evs s = shift (trace s ++ evs) s0) as Hshift.
  { intros evs. unfold record_events, shift, s0. simpl. by rewrite app_nil_r. }
  rewrite !Hshift.
  rewrite !(history_free_run_batch W ips false key coll headers t m b).
  destruct (run_batch_status W false key coll headers t m b ips s0)
    as (evs & s1 & -> & Htr & _).
  simpl in Htr. eexists _, evs, _. split; [reflexivity|].
  unfold shift. simpl. rewrite Htr.
  split; [by rewrite <- app_assoc|].
  do 2 f_equal. by rewrite <- app_assoc.
Qed.

Lemma refused_index_only_adds_a_warning_witness :
  numeric_config (example_world always_ok None) = Some (20, 3, 2) ∧
  mongo_ping (example_world always_ok None) = None ∧
  (run (with_create_index (example_world always_ok None)
                          (Some "not authorized"))
       ["8.8.8.8"] false (Some "indicator") initial).1
  = (run (with_create_index (example_world always_ok None) None)
         ["8.8.8.8"] false (Some "indicator") initial).1.
Proof.
  split; [reflexivity|]. split; [reflexivity|].
  destruct (refused_index_only_adds_a_warning (example_world always_ok None)
              "not authorized" ["8.8.8.8"] (Some "indicator") 20 3 2 initial
              eq_refl eq_refl) as (status & evs & s' & -> & _ & ->).
  reflexivity.
Defined.

(* ================================================================= *)
(** ** A dry run shows what the real run writes *)

Lemma documents_written_app (evs1 evs2 : list event) :
  documents_written (evs1 ++ evs2)
  = documents_written evs1 ++ documents_written evs2.
Proof. apply omap_app. Qed.

Lemma documents_written_fetch_events (evs : list event) :
  Forall (λ e, is_fetch_event e = true) evs → documents_written evs = [].
Proof.
  induction 1 as [|e evs He _ IH]; [done|].
  destruct e; try done; exact IH.
Qed.

Section DryAndReal.

Context (W : world) (key : option string) (coll : collection).
Context (headers : gmap string string) (timeout max_retries backoff : Z).

(** The fetcher looks at the count of requests only. *)
Lemma fetch_loop_same_requests ip (attempts : list Z) :
  ∀ s1 s2,
    requests s1 = requests s2 →
    ∃ r n evs,
      fetch_loop W ip headers timeout max_retries backoff
                 (OTX_URL_TEMPLATE_format ip) attempts s1
      = (r, after_fetch n evs s1) ∧
      fetch_loop W ip headers timeout max_retries backoff
                 (OTX_URL_TEMPLATE_format ip) attempts s2
      = (r, after_fetch n evs s2) ∧
      Forall (λ e, is_fetch_event e = true) evs.
Proof.
  induction attempts as [|attempt rest IH]; intros s1 s2 Hreq.
  - exists (Raise fall_through), 0%nat, []. by rewrite !after_fetch_nil.
  - rewrite !fetch_loop_cons, !attempt_step_verdict, Hreq.
    assert (∀ evs1, ∃ r n evs,
              fetch_loop W ip headers timeout max_retries backoff
                (OTX_URL_TEMPLATE_format ip) rest (after_fetch 1 evs1 s1)
              = (r, after_fetch n evs (after_fetch 1 evs1 s1)) ∧
              fetch_loop W ip headers timeout max_retries backoff
                (OTX_URL_TEMPLATE_format ip) rest (after_fetch 1 evs1 s2)
              = (r, after_fetch n evs (after_fetch 1 evs1 s2)) ∧
              Forall (λ e, is_fetch_event e = true) evs) as Hnext.
    { intros evs1. apply IH. simpl. by rewrite Hreq. }
    assert (∀ evs1, Forall (λ e, is_fetch_event e = true) evs1 →
              ∃ r n evs,
                fetch_loop W ip headers timeout max_retries backoff
                  (OTX_URL_TEMPLATE_format ip) rest (after_fetch 1 evs1 s1)
                = (r, after_fetch n evs s1) ∧
                fetch_loop W ip headers timeout max_retries backoff
                  (OTX_URL_TEMPLATE_format ip) rest (after_fetch 1 evs1 s2)
                = (r, after_fetch n evs s2) ∧
                Forall (λ e, is_fetch_event e = true) evs) as Hgo.
    { intros evs1 Hev1. destruct (Hnext evs1) as (r & n & evs & -> & -> & Hev).
      exists r, (1 + n)%nat, (evs1 ++ evs).
      rewrite !after_fetch_after_fetch. split_and!; [done..|].
      by apply Forall_app. }
    assert (∀ (r : result json) evs1,
              Forall (λ e, is_fetch_event e = true) evs1 →
              ∃ r' n evs,
                (r, after_fetch 1 evs1 s1) = (r', after_fetch n evs s1) ∧
                (r, after_fetch 1 evs1 s2) = (r', after_fetch n evs s2) ∧
                Forall (λ e, is_fetch_event e = true) evs) as Hstop.
    { intros r evs1 Hev1. by exists r, 1%nat, evs1. }
    destruct (timeout <=? 0).
    { exists (Raise (timeout_refused timeout)), 0%nat, [].
      by rewrite !after_fetch_nil. }
    destruct (verdict_of _) as [payload| |e|e];
      [|destruct (sleep_refusal W (backoff * attempt))
       |destruct (attempt =? max_retries);
          [|destruct (sleep_refusal W (backoff * attempt))]|];
      simpl; (apply Hstop || apply Hgo); by repeat constructor.
Qed.

(** One address, dry and real, from the same point of the network and the
    clock: the same requests, and the record printed is the record
    written. *)
Lemma process_ip_dry_and_real (ip : string) (s1 s2 : state) :
  same_inputs s1 s2 →
  ∃ evs1 evs2,
    trace (process_ip W true key None headers timeout max_retries backoff
                      ip s1).2 = trace s1 ++ evs1 ∧
    trace (process_ip W false key (Some coll) headers timeout max_retries
                      backoff ip s2).2 = trace s2 ++ evs2 ∧
    same_inputs
      (process_ip W true key None headers timeout max_retries backoff ip s1).2
      (process_ip W false key (Some coll) headers timeout max_retries backoff
                  ip s2).2 ∧
    printed evs1 = documents_written evs2 ∧
    gets evs1 = gets evs2.
Proof.
  intros [Hreq Hclock]. rewrite !process_ip_unfold. unfold fetch_otx_general.
  destruct (fetch_loop_same_requests ip (range1 (max_retries + 1)) s1 s2 Hreq)
    as (r & n & evs & -> & -> & Hev).
  pose proof (printed_fetch_events _ Hev) as Hp.
  pose proof (documents_written_fetch_events _ Hev) as Hd.
  destruct r as [payload|e].
  2:{ exists evs, evs. simpl. rewrite Hp, Hd. split_and!; try done.
      split; simpl; congruence. }
  destruct (is_dict payload) eqn:Hdict.
  2:{ rewrite !transform_not_object by done. exists evs, evs. simpl.
      rewrite Hp, Hd. split_and!; try done. split; simpl; congruence. }
  destruct payload as [| | | | | |payload]; try done.
  rewrite !transform_object. simpl clock_reads. rewrite Hclock.
  match goal with
  | |- context [EvPrintJson (JObj ?r)] => set (record := r)
  end.
  unfold upsert_document, coll_call, store_write. unfold_M.
  destruct (upsert_filter record key) as [[k v]|];
    destruct (mongo_write W _); simpl;
    eexists (evs ++ [_]), (evs ++ _);
    (split; [by rewrite <- app_assoc|]);
    (split; [rewrite <- ?app_assoc; reflexivity|]);
    rewrite !printed_app, !documents_written_app, !gets_app, Hp, Hd;
    (split_and!; [split; simpl; congruence|done|done]).
Qed.

Lemma same_inputs_record_events (evs1 evs2 : list event) (s1 s2 : state) :
  same_inputs s1 s2 →
  same_inputs (record_events evs1 s1) (record_events evs2 s2).
Proof. by intros [? ?]. Qed.

Lemma run_loop_dry_and_real (ips : list string) :
  ∀ successes1 successes2 s1 s2,
    same_inputs s1 s2 →
    ∃ evs1 evs2,
      trace (run_loop W true key None headers timeout max_retries backoff
                      ips successes1 s1).2 = trace s1 ++ evs1 ∧
      trace (run_loop W false key (Some coll) headers timeout max_retries
                      backoff ips successes2 s2).2 = trace s2 ++ evs2 ∧
      printed evs1 = documents_written evs2 ∧
      gets evs1 = gets evs2.
Proof.
  induction ips as [|ip rest IH]; intros successes1 successes2 s1 s2 Hsame.
  - exists [], []. simpl. by rewrite !app_nil_r.
  - rewrite !run_loop_cons.
    destruct (process_ip_dry_and_real ip s1 s2 Hsame)
      as (evs1 & evs2 & Htr1 & Htr2 & Hsame' & Hdocs & Hgets).
    destruct (process_ip W true _ _ _ _ _ _ _ s1) as [[[]|e1] s1'];
      destruct (process_ip W false _ _ _ _ _ _ _ s2) as [[[]|e2] s2'];
      simpl in Htr1, Htr2, Hsame'.
    + destruct (IH (successes1 + 1) (successes2 + 1) s1' s2' Hsame')
        as (evs1' & evs2' & -> & -> & Hdocs' & Hgets').
      exists (evs1 ++ evs1'), (evs2 ++ evs2').
      rewrite Htr1, Htr2, <- !app_assoc.
      rewrite printed_app, documents_written_app, !gets_app.
      by rewrite Hdocs, Hdocs', Hgets, Hgets'.
    + destruct (IH (successes1 + 1) successes2 s1'
                  (record_events [EvErrorFailed ip e2] s2'))
        as (evs1' & evs2' & -> & -> & Hdocs' & Hgets');
        [destruct Hsame'; by split|].
      exists (evs1 ++ evs1'), (evs2 ++ EvErrorFailed ip e2 :: evs2').
      simpl. rewrite Htr1, Htr2, <- !app_assoc.
      rewrite printed_app, documents_written_app, !gets_app.
      change (documents_written (EvErrorFailed ip e2 :: evs2'))
        with (documents_written evs2').
      change (gets (EvErrorFailed ip e2 :: evs2')) with (gets evs2').
      by rewrite Hdocs, Hdocs', Hgets, Hgets'.
    + destruct (IH successes1 (successes2 + 1)
                  (record_events [EvErrorFailed ip e1] s1') s2')
        as (evs1' & evs2' & -> & -> & Hdocs' & Hgets');
        [destruct Hsame'; by split|].
      exists (evs1 ++ EvErrorFailed ip e1 :: evs1'), (evs2 ++ evs2').
      simpl. rewrite Htr1, Htr2, <- !app_assoc.
      rewrite printed_app, documents_written_app, !gets_app.
      change (printed (EvErrorFailed ip e1 :: evs1')) with (printed evs1').
      change (gets (EvErrorFailed ip e1 :: evs1')) with (gets evs1').
      by rewrite Hdocs, Hdocs', Hgets, Hgets'.
    + destruct (IH successes1 successes2
                  (record_events [EvErrorFailed ip e1] s1')
                  (record_events [EvErrorFailed ip e2] s2'))
        as (evs1' & evs2' & -> & -> & Hdocs' & Hgets');
        [by apply same_inputs_record_events|].
      exists (evs1 ++ EvErrorFailed ip e1 :: evs1'),
             (evs2 ++ EvErrorFailed ip e2 :: evs2').
      simpl. rewrite Htr1, Htr2, <- !app_assoc.
      rewrite printed_app, documents_written_app, !gets_app.
      change (printed (EvErrorFailed ip e1 :: evs1')) with (printed evs1').
      change (gets (EvErrorFailed ip e1 :: evs1')) with (gets evs1').
      change (documents_written (EvErrorFailed ip e2 :: evs2'))
        with (documents_written evs2').
      change (gets (EvErrorFailed ip e2 :: evs2')) with (gets evs2').
      by rewrite Hdocs, Hdocs', Hgets, Hgets'.
Qed.

End DryAndReal.

(** X18 (orchestrator).  A dry run shows what the real run sends to the
    store: from the same state, with numeric settings that parse and a store
    that can be reached, the dry run and the real run make the same
    requests, and the JSON documents the dry run prints are, one by one and
    in the same order, the documents of the writes of the real run. *)
Theorem dry_run_prints_what_the_real_run_writes (W : world)
    (ips : list string) (key : option string) (t m b : Z) (s : state) :
  numeric_config W = Some (t, m, b) →
  mongo_ping W = None →
  ∃ dry real,
    trace (run W ips true key s).2 = trace s ++ dry ∧
    trace (run W ips false key s).2 = trace s ++ real ∧
    printed dry = documents_written real ∧
    gets dry = gets real.
Proof.
  intros Hcfg Hping.
  rewrite (run_dry W _ _ t m b) by done.
  rewrite (run_connected W _ _ t m b) by done.
  unfold run_batch. unfold mbind, M_bind.
  destruct (run_loop_dry_and_real W key
              {| coll_db := MONGO_DB (load_env W);
                 coll_name := MONGO_COLLECTION (load_env W) |}
              (request_headers (load_env W)) t m b ips 0 0 s
              (record_events (connect_events W) s))
    as (dry & real & Hdry & Hreal & Hdocs & Hgets); [done|].
  destruct (run_loop W true _ _ _ _ _ _ _ _ s) as [[n1|e1] s1];
    destruct (run_loop W false _ _ _ _ _ _ _ _ _) as [[n2|e2] s2];
    simpl in *;
    exists dry, (connect_events W ++ real);
    rewrite documents_written_app, gets_app, gets_connect_events;
    (assert (documents_written (connect_events W) = []) as ->
       by (unfold connect_events; by destruct (mongo_create_index W)));
    rewrite Hreal, <- app_assoc; done.
Qed.

Lemma dry_run_prints_what_the_real_run_writes_witness :
  numeric_config (example_world always_ok None) = Some (20, 3, 2) ∧
  mongo_ping (example_world always_ok None) = None ∧
  ∃ dry real,
    trace (run (example_world always_ok None) ["8.8.8.8"] true
               (Some "indicator") initial).2 = dry ∧
    trace (run (example_world always_ok None) ["8.8.8.8"] false
               (Some "indicator") initial).2 = real ∧
    printed dry = documents_written real.
Proof.
  split; [reflexivity|]. split; [reflexivity|].
  destruct (dry_run_prints_what_the_real_run_writes
              (example_world always_ok None) ["8.8.8.8"] (Some "indicator")
              20 3 2 initial eq_refl eq_refl)
    as (dry & real & Hdry & Hreal & Hdocs & _).
  exists dry, real. simpl in Hdry, Hreal. by split_and!.
Defined.

(* ================================================================= *)
(** ** Transformer and persistence layer together *)

Lemma record_lookup_indicator (a b c d e f g h : json) :
  ({[ "ip" := a; "source" := b; "endpoint" := c; "fetched_at" := d;
      "raw" := e; "indicator" := f; "alexa_rank" := g;
      "pulse_count" := h ]} : gmap string json) !! "indicator" = Some f.
Proof. by simplify_map_eq. Qed.

(** X19 (transformer, persistence layer).  The record made of a payload,
    written with the default key [indicator]: the write is an update with
    upsert on [{indicator: v}] exactly when the payload has an [indicator]
    [v] that is not null, and an insert otherwise, so that records without
    an indicator are never merged.  Written with the key [ip] the record is
    always upserted, on the address. *)
Theorem persisting_a_transformed_payload (W : world) (coll : collection)
    (ip : string) (payload : gmap string json) (s : state) :
  ∃ record,
    transform W ip (JObj payload) s = (Ok record, after_clock s) ∧
    upsert_document W (Some coll) record (Some "indicator") (after_clock s)
    = match payload !! "indicator" with
      | Some v =>
          if is_not_None v
          then (written W "upserted" (after_clock s),
                after_write (EvUpdateOne {[ "indicator" := v ]} record true)
                            (after_clock s))
          else (written W "inserted" (after_clock s),
                after_write (EvInsertOne record) (after_clock s))
      | None =>
          (written W "inserted" (after_clock s),
           after_write (EvInsertOne record) (after_clock s))
      end ∧
    upsert_document W (Some coll) record (Some "ip") (after_clock s)
    = (written W "upserted" (after_clock s),
       after_write (EvUpdateOne {[ "ip" := JStr ip ]} record true)
                   (after_clock s)).
Proof.
  eexists. split; [apply transform_object|]. split.
  - destruct (payload !! "indicator") as [v|] eqn:Hv;
      [destruct (is_not_None v) eqn:Hnull|];
      (apply upsert_document_update || apply upsert_document_insert);
      unfold upsert_filter; cbn [Str.truthy default];
      rewrite record_lookup_indicator; cbn [id]; by rewrite ?Hnull.
  - apply upsert_document_update. unfold upsert_filter. simpl.
    by rewrite lookup_insert_eq.
Qed.
